(** * The image editor's edit-session engine (components/ImageEditor.tsx)

    A shallow embedding of the editor component: the crop geometry of the
    composition pipeline, the linear undo/redo history, the autosave slot
    with its signature gate, and the apply step; and of the pure helpers of
    the image service (services/geminiService.ts) that take its data URLs.

    Conventions of the embedding.
    - A JavaScript [number] is a [jsnum]: an exact rational, an infinity or
      NaN.  Rounding of doubles and the sign of zero are not modelled.
    - A [string] is a Rocq [string]; its [length] counts characters, as
      [String.prototype.length] does for the ASCII data URLs the editor
      receives.
    - The React state of the component is the record [Component]; an event
      handler reads the values of the render it closed over and queues
      updates, which is what the [Handler] monad threads. *)

From Stdlib Require Import ZArith QArith Lqa Lia Ascii String.
From stdpp Require Import base option list strings pretty.

Open Scope Z_scope.

(* ===================================================================== *)
(** ** JavaScript numbers *)
(* ===================================================================== *)

Module JS.

Inductive jsnum : Type :=
| Fin (q : Q)
| Inf (negative : bool)
| NaN.

Definition Qltb (a b : Q) : bool := negb (Qle_bool b a).
Definition Qzero (a : Q) : bool := Qeq_bool a 0.

(** [a / b] *)
Definition div (a b : jsnum) : jsnum :=
  match a, b with
  | NaN, _ | _, NaN => NaN
  | Fin x, Fin y =>
      if Qzero y
      then (if Qzero x then NaN else Inf (Qltb x 0))
      else Fin (x / y)
  | Fin _, Inf _ => Fin 0
  | Inf s, Fin y => Inf (xorb s (Qltb y 0))
  | Inf _, Inf _ => NaN
  end.

(** [a * b] *)
Definition mul (a b : jsnum) : jsnum :=
  match a, b with
  | NaN, _ | _, NaN => NaN
  | Fin x, Fin y => Fin (x * y)
  | Fin x, Inf s | Inf s, Fin x =>
      if Qzero x then NaN else Inf (xorb s (Qltb x 0))
  | Inf s, Inf t => Inf (xorb s t)
  end.

(** [a - b] *)
Definition sub (a b : jsnum) : jsnum :=
  match a, b with
  | NaN, _ | _, NaN => NaN
  | Fin x, Fin y => Fin (x - y)
  | Fin _, Inf s => Inf (negb s)
  | Inf s, Fin _ => Inf s
  | Inf s, Inf t => if eqb s t then NaN else Inf s
  end.

(** [a > b] *)
Definition gt (a b : jsnum) : bool :=
  match a, b with
  | NaN, _ | _, NaN => false
  | Fin x, Fin y => Qltb y x
  | Fin _, Inf s => s
  | Inf s, Fin _ => negb s
  | Inf s, Inf t => negb s && t
  end.

Definition of_Z (z : Z) : jsnum := Fin (inject_Z z).

(** Two numbers are the same value: rationals up to [Qeq]. *)
Definition same (a b : jsnum) : Prop :=
  match a, b with
  | Fin x, Fin y => (x == y)%Q
  | Inf s, Inf t => s = t
  | NaN, NaN => True
  | _, _ => False
  end.

(** [Number(s)] on a string of decimal digits; anything else is NaN.
    (The editor only applies it to the halves of a ratio literal.) *)
Definition digit (c : ascii) : option Z :=
  let n := Z.of_nat (Ascii.nat_of_ascii c) in
  if (48 <=? n) && (n <=? 57) then Some (n - 48) else None.

Fixpoint digits (acc : Z) (s : string) : option Z :=
  match s with
  | EmptyString => Some acc
  | String c rest =>
      match digit c with
      | Some d => digits (10 * acc + d) rest
      | None => None
      end
  end.

Definition Number (s : string) : jsnum :=
  match s with
  | EmptyString => of_Z 0
  | _ => match digits 0 s with Some z => of_Z z | None => NaN end
  end.

(** [s.split(sep)] for a one-character separator. *)
Fixpoint split_go (sep : ascii) (cur : string) (s : string) : list string :=
  match s with
  | EmptyString => [String.rev cur]
  | String c rest =>
      if Ascii.eqb c sep
      then String.rev cur :: split_go sep EmptyString rest
      else split_go sep (String c cur) rest
  end.

Definition split (sep : ascii) (s : string) : list string :=
  split_go sep EmptyString s.

End JS.

Abbreviation jsnum := JS.jsnum.

(* ===================================================================== *)
(** ** Edit parameters *)
(* ===================================================================== *)

(** [type CropRatio = 'original' | '1:1' | '16:9' | '4:3' | '3:4' | '9:16'] *)
Inductive CropRatio : Type :=
| original | r1_1 | r16_9 | r4_3 | r3_4 | r9_16.

Global Instance CropRatio_eq_dec : EqDecision CropRatio.
Proof. solve_decision. Defined.

(** The string each member of the union is at run time. *)
Definition CropRatio_literal (r : CropRatio) : string :=
  match r with
  | original => "original"
  | r1_1 => "1:1"
  | r16_9 => "16:9"
  | r4_3 => "4:3"
  | r3_4 => "3:4"
  | r9_16 => "9:16"
  end.

(** [interface EditorState] *)
Record EditorState : Type := mkEditorState {
  brightness : Z;
  contrast : Z;
  rotation : Z;
  cropRatio : CropRatio
}.

Global Instance EditorState_eq_dec : EqDecision EditorState.
Proof. solve_decision. Defined.

Definition INITIAL_STATE : EditorState :=
  {| brightness := 100; contrast := 100; rotation := 0; cropRatio := original |}.

(* ===================================================================== *)
(** ** Crop geometry: [getCropDimensions] *)
(* ===================================================================== *)

Record Crop : Type := mkCrop {
  width : jsnum;
  height : jsnum;
  x : jsnum;
  y : jsnum
}.

Definition Crop_same (a b : Crop) : Prop :=
  JS.same (width a) (width b) /\ JS.same (height a) (height b) /\
  JS.same (x a) (x b) /\ JS.same (y a) (y b).

(** [const [rw, rh] = ratio.split(':').map(Number)]: a missing component
    is [undefined], which every arithmetic operation turns into NaN. *)
Definition ratio_components (ratio : CropRatio) : jsnum * jsnum :=
  let parts := JS.Number <$> JS.split ":" (CropRatio_literal ratio) in
  (default JS.NaN (parts !! 0%nat), default JS.NaN (parts !! 1%nat)).

Definition getCropDimensions (imgWidth imgHeight : jsnum) (ratio : CropRatio) : Crop :=
  if decide (ratio = original)
  then {| width := imgWidth; height := imgHeight; x := JS.of_Z 0; y := JS.of_Z 0 |}
  else
    let '(rw, rh) := ratio_components ratio in
    let targetRatio := JS.div rw rh in
    let currentRatio := JS.div imgWidth imgHeight in
    let '(width, height) :=
      if JS.gt currentRatio targetRatio
      then (JS.mul imgHeight targetRatio, imgHeight)
      else (imgWidth, JS.div imgWidth targetRatio) in
    let x := JS.div (JS.sub imgWidth width) (JS.of_Z 2) in
    let y := JS.div (JS.sub imgHeight height) (JS.of_Z 2) in
    {| width := width; height := height; x := x; y := y |}.

(** The ratio [w:h] a non-original member of [CropRatio] denotes. *)
Definition ratio_terms (ratio : CropRatio) : option (Z * Z) :=
  match ratio with
  | original => None
  | r1_1 => Some (1, 1)
  | r16_9 => Some (16, 9)
  | r4_3 => Some (4, 3)
  | r3_4 => Some (3, 4)
  | r9_16 => Some (9, 16)
  end.

(* ===================================================================== *)
(** ** Component state and event handlers *)
(* ===================================================================== *)

(** The [useState] cells of [ImageEditor].  The four cells [brightness],
    [contrast], [rotation] and [cropRatio] are the fields of [live]. *)
Record Component : Type := mkComponent {
  live : EditorState;
  history : list EditorState;
  currentIndex : Z;
  hasAutosave : bool
}.

Definition initial_component : Component :=
  {| live := INITIAL_STATE; history := [INITIAL_STATE]; currentIndex := 0;
     hasAutosave := false |}.

Inductive JSError : Type := TypeError | SyntaxError.

Inductive Completion (A : Type) : Type :=
| Normal (a : A)
| Throw (e : JSError).
Arguments Normal {A} a.
Arguments Throw {A} e.

(** An event handler closes over the state of the render that created it
    (first argument, read-only) and queues state updates (second argument,
    threaded).  Updates queued before an exception stay queued. *)
Definition Handler (A : Type) : Type :=
  Component -> Component -> Completion A * Component.

Definition ret {A} (a : A) : Handler A := fun _ q => (Normal a, q).

Definition bind {A B} (m : Handler A) (k : A -> Handler B) : Handler B :=
  fun snap q =>
    match m snap q with
    | (Normal a, q') => k a snap q'
    | (Throw e, q') => (Throw e, q')
    end.

Definition throw {A} (e : JSError) : Handler A := fun _ q => (Throw e, q).

(** Read a value of the closed-over render. *)
Definition rendered {A} (f : Component -> A) : Handler A :=
  fun snap q => (Normal (f snap), q).

Definition queue (f : Component -> Component) : Handler unit :=
  fun _ q => (Normal tt, f q).

(** [try { m } catch (e) { console.error(...) }] *)
Definition try_catch (m : Handler unit) : Handler unit :=
  fun snap q =>
    match m snap q with
    | (Normal a, q') => (Normal a, q')
    | (Throw _, q') => (Normal tt, q')
    end.

Declare Scope handler_scope.
Delimit Scope handler_scope with handler.
Notation "x <- m ;; k" := (bind m (fun x => k))
  (at level 100, m at next level, right associativity) : handler_scope.
Notation "m ;; k" := (bind m (fun _ => k))
  (at level 100, right associativity) : handler_scope.
Open Scope handler_scope.

(** The state the component renders next, and how the handler completed. *)
Definition run (h : Handler unit) (c : Component) : Component := (h c c).2.
Definition completion (h : Handler unit) (c : Component) : Completion unit := (h c c).1.

Definition setBrightness (v : Z) : Handler unit :=
  queue (fun q => {| live := {| brightness := v; contrast := contrast (live q);
                               rotation := rotation (live q); cropRatio := cropRatio (live q) |};
                     history := history q; currentIndex := currentIndex q;
                     hasAutosave := hasAutosave q |}).

Definition setContrast (v : Z) : Handler unit :=
  queue (fun q => {| live := {| brightness := brightness (live q); contrast := v;
                               rotation := rotation (live q); cropRatio := cropRatio (live q) |};
                     history := history q; currentIndex := currentIndex q;
                     hasAutosave := hasAutosave q |}).

Definition setRotation (v : Z) : Handler unit :=
  queue (fun q => {| live := {| brightness := brightness (live q); contrast := contrast (live q);
                               rotation := v; cropRatio := cropRatio (live q) |};
                     history := history q; currentIndex := currentIndex q;
                     hasAutosave := hasAutosave q |}).

Definition setCropRatio (v : CropRatio) : Handler unit :=
  queue (fun q => {| live := {| brightness := brightness (live q); contrast := contrast (live q);
                               rotation := rotation (live q); cropRatio := v |};
                     history := history q; currentIndex := currentIndex q;
                     hasAutosave := hasAutosave q |}).

Definition setHistory (v : list EditorState) : Handler unit :=
  queue (fun q => {| live := live q; history := v; currentIndex := currentIndex q;
                     hasAutosave := hasAutosave q |}).

Definition setCurrentIndex (v : Z) : Handler unit :=
  queue (fun q => {| live := live q; history := history q; currentIndex := v;
                     hasAutosave := hasAutosave q |}).

Definition setHasAutosave (v : bool) : Handler unit :=
  queue (fun q => {| live := live q; history := history q; currentIndex := currentIndex q;
                     hasAutosave := v |}).

(** [arr[i]]: [undefined] (here [None]) outside [0 .. length-1]. *)
Definition at_index {A} (arr : list A) (i : Z) : option A :=
  if i <? 0 then None else arr !! Z.to_nat i.

(** [arr.length] *)
Definition len {A} (arr : list A) : Z := Z.of_nat (length arr).

(** [arr.slice(0, e)]: a negative [e] counts from the end. *)
Definition slice0 {A} (arr : list A) (e : Z) : list A :=
  let stop := if e <? 0 then Z.max (len arr + e) 0 else Z.min e (len arr) in
  take (Z.to_nat stop) arr.

(** [applyState(state)]; reading a field of [undefined] throws. *)
Definition applyState (state : option EditorState) : Handler unit :=
  match state with
  | None => throw TypeError
  | Some state =>
      setBrightness (brightness state);;
      setContrast (contrast state);;
      setRotation (rotation state);;
      setCropRatio (cropRatio state)
  end.

Definition addToHistory (newState : EditorState) : Handler unit :=
  history_ <- rendered history;;
  currentIndex_ <- rendered currentIndex;;
  match at_index history_ currentIndex_ with
  | None => throw TypeError
  | Some currentState =>
      if (brightness currentState =? brightness newState) &&
         (contrast currentState =? contrast newState) &&
         (rotation currentState =? rotation newState) &&
         bool_decide (cropRatio currentState = cropRatio newState)
      then ret tt
      else
        let newHistory := slice0 history_ (currentIndex_ + 1) ++ [newState] in
        setHistory newHistory;;
        setCurrentIndex (len newHistory - 1)
  end.

Definition handleUndo : Handler unit :=
  currentIndex_ <- rendered currentIndex;;
  if currentIndex_ >? 0 then
    let newIndex := currentIndex_ - 1 in
    setCurrentIndex newIndex;;
    history_ <- rendered history;;
    applyState (at_index history_ newIndex)
  else ret tt.

Definition handleRedo : Handler unit :=
  currentIndex_ <- rendered currentIndex;;
  history_ <- rendered history;;
  if currentIndex_ <? len history_ - 1 then
    let newIndex := currentIndex_ + 1 in
    setCurrentIndex newIndex;;
    applyState (at_index history_ newIndex)
  else ret tt.

(** The [disabled] attributes of the two buttons. *)
Definition undo_disabled (c : Component) : bool := currentIndex c =? 0.
Definition redo_disabled (c : Component) : bool := currentIndex c =? len (history c) - 1.

Definition handleRotate : Handler unit :=
  l <- rendered live;;
  let newRotation := Z.rem (rotation l + 90) 360 in
  setRotation newRotation;;
  addToHistory {| brightness := brightness l; contrast := contrast l;
                  rotation := newRotation; cropRatio := cropRatio l |}.

Definition handleCropChange (ratio : CropRatio) : Handler unit :=
  l <- rendered live;;
  setCropRatio ratio;;
  addToHistory {| brightness := brightness l; contrast := contrast l;
                  rotation := rotation l; cropRatio := ratio |}.

Definition commitSliderChange : Handler unit :=
  l <- rendered live;;
  addToHistory {| brightness := brightness l; contrast := contrast l;
                  rotation := rotation l; cropRatio := cropRatio l |}.

Definition handleReset : Handler unit :=
  applyState (Some INITIAL_STATE);;
  setHistory [INITIAL_STATE];;
  setCurrentIndex 0.

(** [current()] of the history: [history[currentIndex]]. *)
Definition current (c : Component) : option EditorState :=
  at_index (history c) (currentIndex c).

(* ===================================================================== *)
(** ** Autosave slot and source signature *)
(* ===================================================================== *)

(** [imgData.slice(0, n)] and [imgData.slice(-n)] *)
Definition slice_head (n : nat) (s : string) : string := String.substring 0 n s.
Definition slice_tail (n : nat) (s : string) : string :=
  String.substring (String.length s - n) n s.

Definition getImageSignature (imgData : string) : string :=
  match imgData with
  | EmptyString => ""
  | _ => pretty (String.length imgData) +:+ "-" +:+ slice_head 30 imgData
         +:+ "-" +:+ slice_tail 30 imgData
  end.

(** [stateToSave] of the autosave effect. *)
Record SavedState : Type := mkSavedState {
  imageSignature : string;
  saved_live : EditorState;
  saved_history : list EditorState;
  saved_currentIndex : Z;
  timestamp : Z
}.

(** What [localStorage.getItem(AUTOSAVE_KEY)] holds: nothing (null, or the
    empty string, which [if (saved)] skips as well), text on which
    [JSON.parse] throws, or the JSON text of a [SavedState].  The key is
    written by the autosave timer only, so parsable text is taken to have
    the fields of [stateToSave]; their values are not constrained. *)
Inductive Slot : Type :=
| NoItem
| Malformed
| Item (parsed : SavedState).

(** The effect that runs on mount (and when [image] changes). *)
Definition autosaveCheck (image : string) (slot : Slot) : Handler unit :=
  try_catch
    match slot with
    | NoItem => ret tt
    | Malformed => throw SyntaxError
    | Item parsed =>
        if String.eqb (imageSignature parsed) (getImageSignature image)
        then setHasAutosave true
        else ret tt
    end.

(** The body of the autosave timer: the item it writes. *)
Definition stateToSave (image : string) (now : Z) (c : Component) : SavedState :=
  {| imageSignature := getImageSignature image;
     saved_live := live c;
     saved_history := history c;
     saved_currentIndex := currentIndex c;
     timestamp := now |}.

Definition handleRestoreAutosave (image : string) (slot : Slot) : Handler unit :=
  try_catch
    match slot with
    | NoItem => ret tt
    | Malformed => throw SyntaxError
    | Item parsed =>
        if String.eqb (imageSignature parsed) (getImageSignature image)
        then
          setBrightness (brightness (saved_live parsed));;
          setContrast (contrast (saved_live parsed));;
          setRotation (rotation (saved_live parsed));;
          setCropRatio (cropRatio (saved_live parsed));;
          setHistory (saved_history parsed);;
          setCurrentIndex (saved_currentIndex parsed)
        else ret tt
    end.

(** The editor together with the storage slot it shares with earlier and
    later sessions. *)
Record World : Type := mkWorld {
  comp : Component;
  slot : Slot
}.

(** The editor as first rendered for [image], after the mount effect. *)
Definition mount (image : string) (s : Slot) : World :=
  {| comp := run (autosaveCheck image s) initial_component; slot := s |}.

(** What can happen to a mounted editor. *)
Inductive Event : Type :=
| SlideBrightness (v : Z)       (* onChange of the brightness slider *)
| SlideContrast (v : Z)         (* onChange of the contrast slider *)
| SliderRelease                 (* onMouseUp / onTouchEnd *)
| Rotate
| CropChange (ratio : CropRatio)
| Undo
| Redo
| Reset
| Restore
| AutosaveFires (now : Z).      (* the 2 s timer *)

Definition step (image : string) (e : Event) (w : World) : World :=
  match e with
  | SlideBrightness v => {| comp := run (setBrightness v) (comp w); slot := slot w |}
  | SlideContrast v => {| comp := run (setContrast v) (comp w); slot := slot w |}
  | SliderRelease => {| comp := run commitSliderChange (comp w); slot := slot w |}
  | Rotate => {| comp := run handleRotate (comp w); slot := slot w |}
  | CropChange ratio => {| comp := run (handleCropChange ratio) (comp w); slot := slot w |}
  | Undo => {| comp := run handleUndo (comp w); slot := slot w |}
  | Redo => {| comp := run handleRedo (comp w); slot := slot w |}
  | Reset => {| comp := run handleReset (comp w); slot := slot w |}
  | Restore => {| comp := run (handleRestoreAutosave image (slot w)) (comp w); slot := slot w |}
  | AutosaveFires now => {| comp := comp w; slot := Item (stateToSave image now (comp w)) |}
  end.

Definition steps (image : string) (es : list Event) (w : World) : World :=
  foldl (fun w e => step image e w) w es.

(** The history invariant of the data model. *)
Definition history_ok (h : list EditorState) (i : Z) : Prop :=
  0 <= i < len h /\ h !! 0%nat = Some INITIAL_STATE.

Definition Component_ok (c : Component) : Prop :=
  history_ok (history c) (currentIndex c).

Definition Slot_ok (s : Slot) : Prop :=
  match s with
  | Item parsed => history_ok (saved_history parsed) (saved_currentIndex parsed)
  | _ => True
  end.

Definition World_ok (w : World) : Prop := Component_ok (comp w) /\ Slot_ok (slot w).

(* ===================================================================== *)
(** ** Apply: [generateFinalImage] and the caller *)
(* ===================================================================== *)

(** The calls an editor can make on its props ([onSave], [onCancel]). *)
Inductive CallerNotice : Type :=
| SaveCalled (newImage : string)
| CancelCalled.

(** What is drawn on the final canvas before it is encoded. *)
Record Canvas : Type := mkCanvas {
  source : string;
  filter : Z * Z;                 (* brightness %, contrast % *)
  angle : Z;                      (* degrees *)
  rotatedSize : Z * Z;            (* rotCanvas.width, rotCanvas.height *)
  region : Crop                   (* source rect; the canvas takes its size *)
}.

Section Browser.

(** The browser: [decode] gives [img.width, img.height] when the image
    loads (then [onload] fires) and [None] when it does not;
    [context2d] tells whether [getContext('2d')] yields a context;
    [toDataURL] encodes the canvas as PNG. *)
Variable decode : string -> option (Z * Z).
Variable context2d : bool.
Variable toDataURL : Canvas -> string.

(** The calls on the props that pressing Apply leads to. *)
Definition generateFinalImage (image : string) (c : Component) : list CallerNotice :=
  match decode image with
  | None => []
  | Some (img_width, img_height) =>
      if negb context2d then []
      else
        let isRotatedSideways := negb (Z.rem (rotation (live c)) 180 =? 0) in
        let rotatedWidth := if isRotatedSideways then img_height else img_width in
        let rotatedHeight := if isRotatedSideways then img_width else img_height in
        let crop := getCropDimensions (JS.of_Z rotatedWidth) (JS.of_Z rotatedHeight)
                      (cropRatio (live c)) in
        [SaveCalled (toDataURL
           {| source := image;
              filter := (brightness (live c), contrast (live c));
              angle := rotation (live c);
              rotatedSize := (rotatedWidth, rotatedHeight);
              region := crop |})]
  end.

(** The part of [App] that owns the editor. *)
Record App : Type := mkApp {
  remixSourceImage : option string;
  isEditingRemixSource : bool
}.

Definition handleSaveEditedImage (newImage : string) (a : App) : App :=
  {| remixSourceImage := Some newImage; isEditingRemixSource := false |}.

Definition deliver (a : App) (n : CallerNotice) : App :=
  match n with
  | SaveCalled newImage => handleSaveEditedImage newImage a
  | CancelCalled =>
      {| remixSourceImage := remixSourceImage a; isEditingRemixSource := false |}
  end.

(** [{isEditingRemixSource && remixSourceImage ? <ImageEditor .../> : ...}] *)
Definition editing (a : App) : bool :=
  isEditingRemixSource a &&
  match remixSourceImage a with
  | Some image => negb (String.eqb image "")
  | None => false
  end.

(** Pressing Apply in an editor mounted by [a]: the component queues no
    state update; the app receives the calls. *)
Definition apply (image : string) (a : App) (c : Component) : App * Component :=
  (foldl deliver a (generateFinalImage image c), c).

End Browser.

(** The caller learns something from Apply when a prop is called. *)
Definition caller_told (notices : list CallerNotice) : Prop := notices <> [].

(* ===================================================================== *)
(** ** Closed forms used in the proofs *)
(* ===================================================================== *)

(** The exact value of [rw / rh]. *)
Definition target (w h : Z) : Q := inject_Z w / inject_Z h.

(** The queued state after a commit: history and index replaced. *)
Definition committed (q : Component) (h : list EditorState) (i : Z) : Component :=
  {| live := live q; history := h; currentIndex := i; hasAutosave := hasAutosave q |}.

(** The queued state after an undo or a redo: index moved, live parameters
    overwritten. *)
Definition moved (q : Component) (st : EditorState) (i : Z) : Component :=
  {| live := st; history := history q; currentIndex := i; hasAutosave := hasAutosave q |}.

(* ===================================================================== *)
(** ** Parameter domains *)
(* ===================================================================== *)

(** The values the controls can produce: the two sliders range over
    [0..200] and the rotate button moves through the quarter turns. *)
Definition EditorState_valid (s : EditorState) : Prop :=
  0 <= brightness s <= 200 /\ 0 <= contrast s <= 200 /\
  (rotation s = 0 \/ rotation s = 90 \/ rotation s = 180 \/ rotation s = 270).

Definition Component_valid (c : Component) : Prop :=
  EditorState_valid (live c) /\ Forall EditorState_valid (history c).

Definition Slot_valid (s : Slot) : Prop :=
  match s with
  | Item parsed =>
      EditorState_valid (saved_live parsed) /\ Forall EditorState_valid (saved_history parsed)
  | _ => True
  end.

Definition World_valid (w : World) : Prop := Component_valid (comp w) /\ Slot_valid (slot w).

(** [<input type="range" min="0" max="200">] *)
Definition Event_valid (e : Event) : Prop :=
  match e with
  | SlideBrightness v | SlideContrast v => 0 <= v <= 200
  | _ => True
  end.


(* ===================================================================== *)
(** ** The image service (services/geminiService.ts): pure helpers *)
(* ===================================================================== *)

(** What a function of the service does: return a value or throw
    [new Error(message)]. *)
Inductive Outcome (A : Type) : Type :=
| Returned (a : A)
| Threw (message : string).
Arguments Returned {A} a.
Arguments Threw {A} message.

(** [base64Data.split(',')[1]]; [None] is [undefined]. *)
Definition cleanBase64 (base64Data : string) : option string :=
  JS.split "," base64Data !! 1%nat.

(** [base64Data.split(';')[0].split(':')[1]] *)
Definition getMimeType (base64Data : string) : option string :=
  JS.split ":" (default "" (JS.split ";" base64Data !! 0%nat)) !! 1%nat.

(** A part of a model response; [inlineData] holds [inlineData.data]. *)
Record Part : Type := mkPart {
  inlineData : option string;
  text : option string
}.

(** [for (const part of parts) { if (part.inlineData) return `data:image/png;base64,${...}` }
    throw new Error(message)] *)
Fixpoint inlineImage (message : string) (parts : list Part) : Outcome string :=
  match parts with
  | [] => Threw message
  | part :: rest =>
      match inlineData part with
      | Some data => Returned ("data:image/png;base64," +:+ data)
      | None => inlineImage message rest
      end
  end.

(** The tail of [generateNewImage] and of [remixImage], from the response
    on; [None] stands for a response without
    [candidates?.[0]?.content?.parts]. *)
Definition generateNewImage_result (parts : option (list Part)) : Outcome string :=
  inlineImage "No image generated." (default [] parts).

Definition remixImage_result (parts : option (list Part)) : Outcome string :=
  inlineImage "No remixed image returned." (default [] parts).

(** White space of [String.prototype.trim] among the code units below 256:
    TAB, LF, VT, FF, CR, SP and NBSP. *)
Definition is_white (c : ascii) : bool :=
  match Ascii.nat_of_ascii c with
  | 9%nat | 10%nat | 11%nat | 12%nat | 13%nat | 32%nat | 160%nat => true
  | _ => false
  end.

Fixpoint trimStart (s : string) : string :=
  match s with
  | EmptyString => EmptyString
  | String c rest => if is_white c then trimStart rest else s
  end.

(** The characters of [s] up to its last non-white one. *)
Fixpoint trimEnd (s : string) : string :=
  match s with
  | EmptyString => EmptyString
  | String c rest =>
      match trimEnd rest with
      | EmptyString => if is_white c then EmptyString else String c EmptyString
      | kept => String c kept
      end
  end.

Definition trim (s : string) : string := trimEnd (trimStart s).

(** [getAI]: the key the client is built with.
    [const key = apiKey?.trim() || process.env.API_KEY; if (!key) throw ...] *)
Definition getAI (apiKey env_API_KEY : option string) : Outcome string :=
  let trimmed := trim <$> apiKey in
  let key :=
    match trimmed with
    | Some (String c rest) => Some (String c rest)
    | _ => env_API_KEY
    end in
  match key with
  | Some (String c rest) => Returned (String c rest)
  | _ => Threw "No API Key found. Please provided a Gemini API Key or ensure the environment variable is set."
  end.

(** [validateApiKey]: [ping key] tells whether the test request resolves. *)
Definition validateApiKey (ping : string -> bool) (apiKey env_API_KEY : option string) : bool :=
  match getAI apiKey env_API_KEY with
  | Returned key => ping key
  | Threw _ => false
  end.

(* ===================================================================== *)
(** ** Helpers of the proofs about strings *)
(* ===================================================================== *)

(** No character of [s] is [c]. *)
Fixpoint lacks (c : ascii) (s : string) : Prop :=
  match s with
  | EmptyString => True
  | String d rest => d <> c /\ lacks c rest
  end.

(** Every character of [s] passes the test [P]. *)
Fixpoint every (P : ascii -> bool) (s : string) : Prop :=
  match s with
  | EmptyString => True
  | String d rest => P d = true /\ every P rest
  end.

(* ===================================================================== *)
(** * Properties *)
(* ===================================================================== *)

(** ** Crop geometry *)

Section CropFacts.
Open Scope Q_scope.

Lemma Qzero_false (a : Q) : ~ a == 0 -> JS.Qzero a = false.
Proof.
  intros Ha. unfold JS.Qzero.
  destruct (Qeq_bool a 0) eqn:E; [|reflexivity].
  apply Qeq_bool_iff in E. contradiction.
Qed.

Lemma Qltb_spec (a b : Q) : JS.Qltb a b = true <-> a < b.
Proof.
  unfold JS.Qltb. rewrite negb_true_iff.
  destruct (Qle_bool b a) eqn:E.
  - apply Qle_bool_iff in E. split; [discriminate | intros; lra].
  - split; [intros _ | reflexivity].
    destruct (Qlt_le_dec a b) as [Hlt|Hle]; [exact Hlt|].
    apply Qle_bool_iff in Hle. congruence.
Qed.

(** Splitting the literal and converting its halves gives the two terms
    of the ratio, both positive. *)
Lemma ratio_components_terms (ratio : CropRatio) (w h : Z) :
  ratio_terms ratio = Some (w, h) ->
  ratio_components ratio = (JS.of_Z w, JS.of_Z h) /\ (0 < w)%Z /\ (0 < h)%Z.
Proof.
  destruct ratio; simpl; intros [= <- <-]; (split; [reflexivity | lia]).
Qed.

Lemma target_pos (w h : Z) : (0 < w)%Z -> (0 < h)%Z -> 0 < target w h.
Proof.
  intros Hw Hh. unfold target. apply Qlt_shift_div_l.
  - change 0 with (inject_Z 0). rewrite <- Zlt_Qlt. exact Hh.
  - rewrite Qmult_0_l. change 0 with (inject_Z 0). rewrite <- Zlt_Qlt. exact Hw.
Qed.

(** The crop of a buffer of positive height, in closed form. *)
Lemma getCropDimensions_closed (W H : Q) (ratio : CropRatio) (w h : Z) :
  0 < H -> ratio_terms ratio = Some (w, h) ->
  getCropDimensions (JS.Fin W) (JS.Fin H) ratio =
    if JS.Qltb (target w h) (W / H)
    then {| width := JS.Fin (H * target w h); height := JS.Fin H;
            x := JS.Fin ((W - H * target w h) / 2); y := JS.Fin ((H - H) / 2) |}
    else {| width := JS.Fin W; height := JS.Fin (W / target w h);
            x := JS.Fin ((W - W) / 2); y := JS.Fin ((H - W / target w h) / 2) |}.
Proof.
  intros HH Hr.
  assert (HzH : JS.Qzero H = false) by (apply Qzero_false; lra).
  unfold getCropDimensions.
  destruct (decide (ratio = original)) as [->|_]; [discriminate|].
  destruct (ratio_components_terms _ _ _ Hr) as (-> & Hw & Hh).
  assert (Hzh : JS.Qzero (inject_Z h) = false).
  { apply Qzero_false. change 0 with (inject_Z 0). rewrite inject_Z_injective. lia. }
  pose proof (target_pos w h Hw Hh) as Ht.
  assert (Hzt : JS.Qzero (target w h) = false) by (apply Qzero_false; lra).
  unfold JS.of_Z. cbn [JS.div]. rewrite Hzh, HzH. fold (target w h).
  cbn [JS.gt].
  destruct (JS.Qltb (target w h) (W / H)); cbn [JS.mul JS.sub JS.div].
  - reflexivity.
  - rewrite Hzt. reflexivity.
Qed.

Lemma wide_fits (W H t : Q) : 0 < H -> t < W / H -> H * t <= W.
Proof.
  intros HH Hlt.
  assert (E : W == (W / H) * H) by (field; lra).
  apply (Qmult_lt_compat_r _ _ H HH) in Hlt. lra.
Qed.

Lemma tall_fits (W H t : Q) : 0 < H -> 0 < t -> W / H <= t -> W / t <= H.
Proof.
  intros HH Ht Hle.
  assert (E : W == (W / H) * H) by (field; lra).
  apply Qle_shift_div_r; [exact Ht|].
  apply (Qmult_le_compat_r _ _ H) in Hle; lra.
Qed.

End CropFacts.

(** A buffer of height 0: [imgWidth / imgHeight] is [Infinity], the wide
    branch is taken. *)
Example crop_of_degenerate_buffer :
  getCropDimensions (JS.of_Z 10) (JS.of_Z 0) r1_1 =
    {| width := JS.Fin (0 * (1 / 1)); height := JS.Fin 0;
       x := JS.Fin ((10 - 0 * (1 / 1)) / 2); y := JS.Fin ((0 - 0) / 2) |}.
Proof. reflexivity. Qed.

(** C1.  For a buffer [W x H] (of positive height) and a ratio [w:h] other
    than 'original', the crop has width [H*(w/h)] and height [H] when
    [W/H > w/h], and width [W] and height [W/(w/h)] otherwise, with the
    offsets [x = (W - width)/2] and [y = (H - height)/2].  A 1000x500 buffer
    with 1:1 gives 500, 500, 250, 0 and a 500x1000 buffer gives 500, 500, 0,
    250. *)
Theorem crop_geometry :
  (forall (W H : Q) (ratio : CropRatio) (w h : Z),
     (0 < H)%Q -> ratio_terms ratio = Some (w, h) ->
     let t := (inject_Z w / inject_Z h)%Q in
     let c := getCropDimensions (JS.Fin W) (JS.Fin H) ratio in
     ((t < W / H)%Q ->
        Crop_same c {| width := JS.Fin (H * t); height := JS.Fin H;
                       x := JS.Fin ((W - H * t) / 2); y := JS.Fin ((H - H) / 2) |}) /\
     (~ (t < W / H)%Q ->
        Crop_same c {| width := JS.Fin W; height := JS.Fin (W / t);
                       x := JS.Fin ((W - W) / 2); y := JS.Fin ((H - W / t) / 2) |}))
  /\ Crop_same (getCropDimensions (JS.of_Z 1000) (JS.of_Z 500) r1_1)
       {| width := JS.of_Z 500; height := JS.of_Z 500; x := JS.of_Z 250; y := JS.of_Z 0 |}
  /\ Crop_same (getCropDimensions (JS.of_Z 500) (JS.of_Z 1000) r1_1)
       {| width := JS.of_Z 500; height := JS.of_Z 500; x := JS.of_Z 0; y := JS.of_Z 250 |}.
Proof.
  split; [|split].
  - intros W H ratio w h HH Hr t c. subst c.
    rewrite (getCropDimensions_closed W H ratio w h HH Hr).
    fold (target w h) in t. subst t.
    destruct (JS.Qltb (target w h) (W / H)) eqn:E.
    + apply Qltb_spec in E.
      split; [intros _ | intros Hn; contradiction].
      repeat split; cbn; reflexivity.
    + assert (~ (target w h < W / H)%Q) as Hn.
      { intros Hlt. apply Qltb_spec in Hlt. congruence. }
      split; [intros Hlt; contradiction | intros _].
      repeat split; cbn; reflexivity.
  - vm_compute. repeat split; reflexivity.
  - vm_compute. repeat split; reflexivity.
Qed.

Lemma crop_geometry_witness :
  Crop_same (getCropDimensions (JS.Fin 1920) (JS.Fin 1080) r4_3)
    {| width := JS.Fin (1080 * (inject_Z 4 / inject_Z 3));
       height := JS.Fin 1080;
       x := JS.Fin ((1920 - 1080 * (inject_Z 4 / inject_Z 3)) / 2);
       y := JS.Fin ((1080 - 1080) / 2) |}.
Proof.
  apply (proj1 crop_geometry 1920%Q 1080%Q r4_3 4 3); reflexivity.
Defined.

(** C8.  For a buffer of positive width and height and any crop ratio, the
    crop region lies within the buffer and is centred. *)
Theorem crop_within_bounds (W H : Q) (ratio : CropRatio) :
  (0 < W)%Q -> (0 < H)%Q ->
  exists cw ch cx cy : Q,
    getCropDimensions (JS.Fin W) (JS.Fin H) ratio =
      {| width := JS.Fin cw; height := JS.Fin ch; x := JS.Fin cx; y := JS.Fin cy |} /\
    (0 <= cx /\ 0 <= cy /\ cx + cw <= W /\ cy + ch <= H /\
     cx == (W - cw) / 2 /\ cy == (H - ch) / 2)%Q.
Proof.
  intros HW HH.
  destruct (ratio_terms ratio) as [[w h]|] eqn:Hr.
  - rewrite (getCropDimensions_closed W H ratio w h HH Hr).
    destruct (ratio_components_terms _ _ _ Hr) as (_ & Hw & Hh).
    pose proof (target_pos w h Hw Hh) as Ht.
    destruct (JS.Qltb (target w h) (W / H)) eqn:E.
    + apply Qltb_spec in E. pose proof (wide_fits W H _ HH E) as Hfit.
      do 4 eexists. split; [reflexivity|].
      clear E. set (cw := (H * target w h)%Q) in *. clearbody cw.
      repeat split; try reflexivity; unfold Qdiv; change (/ 2)%Q with (1 # 2)%Q; lra.
    + assert (W / H <= target w h)%Q as Hle.
      { destruct (Qlt_le_dec (target w h) (W / H)) as [Hlt|Hle]; [|exact Hle].
        apply Qltb_spec in Hlt. congruence. }
      pose proof (tall_fits W H _ HH Ht Hle) as Hfit.
      do 4 eexists. split; [reflexivity|].
      clear E Hle. set (ch := (W / target w h)%Q) in *. clearbody ch.
      repeat split; try reflexivity; unfold Qdiv; change (/ 2)%Q with (1 # 2)%Q; lra.
  - destruct ratio; try discriminate.
    exists W, H, 0%Q, 0%Q. split; [reflexivity|].
    repeat split; try lra; field.
Qed.

Lemma crop_within_bounds_witness :
  exists cw ch cx cy : Q,
    getCropDimensions (JS.Fin 500) (JS.Fin 1000) r16_9 =
      {| width := JS.Fin cw; height := JS.Fin ch; x := JS.Fin cx; y := JS.Fin cy |} /\
    (0 <= cx /\ 0 <= cy /\ cx + cw <= 500 /\ cy + ch <= 1000 /\
     cx == (500 - cw) / 2 /\ cy == (1000 - ch) / 2)%Q.
Proof.
  apply (crop_within_bounds 500%Q 1000%Q r16_9); reflexivity.
Defined.

(** ** History *)

(** The scenario of the editor's history: rotate, crop to 1:1, undo twice,
    redo once. *)
Example scenario_rotate_crop_undo_undo_redo :
  let c := comp (steps "data:image/png;base64,iVBORw0KGgo="
                   [Rotate; CropChange r1_1; Undo; Undo; Redo]
                   (mount "data:image/png;base64,iVBORw0KGgo=" NoItem)) in
  len (history c) = 3 /\ currentIndex c = 1 /\
  live c = {| brightness := 100; contrast := 100; rotation := 90; cropRatio := original |}.
Proof. vm_compute. auto. Qed.

Section HistoryFacts.

Lemma at_index_range {A} (arr : list A) (i : Z) (a : A) :
  at_index arr i = Some a -> 0 <= i < len arr.
Proof.
  unfold at_index, len. destruct (Z.ltb_spec i 0) as [|Hi]; [discriminate|].
  intros Hl. apply lookup_lt_Some in Hl. lia.
Qed.

Lemma at_index_defined {A} (arr : list A) (i : Z) :
  0 <= i < len arr -> exists a, at_index arr i = Some a.
Proof.
  unfold at_index, len. intros [Hi Hl].
  destruct (Z.ltb_spec i 0) as [|_]; [lia|].
  apply lookup_lt_is_Some_2. lia.
Qed.

Lemma slice0_take {A} (arr : list A) (e : Z) :
  0 <= e <= len arr -> slice0 arr e = take (Z.to_nat e) arr.
Proof.
  unfold slice0. intros He.
  destruct (Z.ltb_spec e 0) as [|_]; [lia|].
  rewrite Z.min_l by lia. reflexivity.
Qed.

Lemma len_app_one {A} (arr : list A) (a : A) : len (arr ++ [a]) = len arr + 1.
Proof. unfold len. rewrite length_app. simpl. lia. Qed.

Lemma len_slice0 {A} (arr : list A) (e : Z) :
  0 <= e <= len arr -> len (slice0 arr e) = e.
Proof.
  intros He. rewrite slice0_take by exact He.
  unfold len in *. rewrite length_take. lia.
Qed.

(** The four [===] tests of [addToHistory] decide structural equality. *)
Lemma same_fields (a b : EditorState) :
  (brightness a =? brightness b) && (contrast a =? contrast b) &&
  (rotation a =? rotation b) && bool_decide (cropRatio a = cropRatio b) = true
  <-> a = b.
Proof.
  destruct a, b; cbn. rewrite !andb_true_iff, !Z.eqb_eq, bool_decide_eq_true.
  split; [intros [[[-> ->] ->] ->]; reflexivity | intros [= -> -> -> ->]; auto].
Qed.

(** [addToHistory] in closed form, for a render whose index is in range. *)
Lemma addToHistory_closed (newState currentState : EditorState) (snap q : Component) :
  current snap = Some currentState ->
  addToHistory newState snap q =
    (Normal tt,
     if decide (currentState = newState) then q
     else committed q
            (take (Z.to_nat (currentIndex snap + 1)) (history snap) ++ [newState])
            (currentIndex snap + 1)).
Proof.
  unfold current. intros Hcur.
  pose proof (at_index_range _ _ _ Hcur) as Hr.
  unfold addToHistory, bind, rendered. rewrite Hcur.
  destruct (decide (currentState = newState)) as [He|Hne].
  - apply same_fields in He. rewrite He. reflexivity.
  - destruct (_ && _) eqn:E; [apply same_fields in E; contradiction|].
    unfold setHistory, setCurrentIndex, queue, committed. cbn.
    rewrite len_app_one, len_slice0 by lia.
    rewrite slice0_take by lia.
    do 3 f_equal. lia.
Qed.

End HistoryFacts.

(** C3.  Committing a candidate whose four fields equal those of the
    snapshot at the current index changes neither the length of the
    history nor the index (nothing at all changes). *)
Theorem commit_of_current_is_noop (c : Component) (cur candidate : EditorState) :
  current c = Some cur ->
  brightness candidate = brightness cur ->
  contrast candidate = contrast cur ->
  rotation candidate = rotation cur ->
  cropRatio candidate = cropRatio cur ->
  completion (addToHistory candidate) c = Normal tt /\
  len (history (run (addToHistory candidate) c)) = len (history c) /\
  currentIndex (run (addToHistory candidate) c) = currentIndex c /\
  run (addToHistory candidate) c = c.
Proof.
  intros Hcur Hb Hc Hr Hk.
  assert (cur = candidate) as <-.
  { destruct cur, candidate; cbn in *; congruence. }
  unfold completion, run. rewrite (addToHistory_closed _ _ _ _ Hcur).
  rewrite decide_True by reflexivity. cbn. auto.
Qed.

Lemma commit_of_current_is_noop_witness :
  let c := run (handleCropChange r16_9) (run handleRotate initial_component) in
  let candidate := {| brightness := 100; contrast := 100; rotation := 90; cropRatio := r16_9 |} in
  completion (addToHistory candidate) c = Normal tt /\
  len (history (run (addToHistory candidate) c)) = len (history c) /\
  currentIndex (run (addToHistory candidate) c) = currentIndex c /\
  run (addToHistory candidate) c = c.
Proof.
  intros c candidate.
  apply (commit_of_current_is_noop c candidate candidate); reflexivity.
Defined.

(** C2.  When the index is strictly below the last position, committing a
    snapshot that differs from the current one keeps positions 0..index,
    appends the snapshot and moves the index to the new last position;
    a redo right after does nothing (the forward branch is gone). *)
Theorem commit_truncates_forward_branch (c : Component) (cur candidate : EditorState) :
  currentIndex c < len (history c) - 1 ->
  current c = Some cur ->
  candidate <> cur ->
  let c' := run (addToHistory candidate) c in
  completion (addToHistory candidate) c = Normal tt /\
  history c' = take (Z.to_nat (currentIndex c + 1)) (history c) ++ [candidate] /\
  (forall i, 0 <= i <= currentIndex c -> at_index (history c') i = at_index (history c) i) /\
  len (history c') = currentIndex c + 2 /\
  currentIndex c' = len (history c') - 1 /\
  current c' = Some candidate /\
  redo_disabled c' = true /\
  completion handleRedo c' = Normal tt /\
  run handleRedo c' = c'.
Proof.
  intros Hlt Hcur Hne c'.
  pose proof (at_index_range _ _ _ Hcur) as Hr.
  assert (Hc' : c' = committed c
            (take (Z.to_nat (currentIndex c + 1)) (history c) ++ [candidate])
            (currentIndex c + 1)).
  { subst c'. unfold run. rewrite (addToHistory_closed _ _ _ _ Hcur).
    rewrite decide_False by congruence. reflexivity. }
  assert (Hlen : len (history c') = currentIndex c + 2).
  { rewrite Hc'. cbn. rewrite len_app_one. unfold len in *.
    rewrite length_take. lia. }
  split.
  { unfold completion. rewrite (addToHistory_closed _ _ _ _ Hcur). reflexivity. }
  split; [rewrite Hc'; reflexivity|].
  split.
  { intros i Hi. rewrite Hc'. cbn. unfold at_index.
    destruct (Z.ltb_spec i 0); [reflexivity|].
    rewrite lookup_app_l by (rewrite length_take; unfold len in *; lia).
    apply lookup_take_lt. lia. }
  split; [exact Hlen|].
  assert (Hidx : currentIndex c' = len (history c') - 1).
  { rewrite Hlen. rewrite Hc'. cbn. lia. }
  split; [exact Hidx|].
  split.
  { unfold current. rewrite Hidx, Hlen. rewrite Hc'. cbn. unfold at_index.
    destruct (Z.ltb_spec (currentIndex c + 2 - 1) 0); [lia|].
    rewrite lookup_app_r by (rewrite length_take; unfold len in *; lia).
    rewrite length_take.
    replace (_ - _)%nat with 0%nat by (unfold len in *; lia). reflexivity. }
  split; [unfold redo_disabled; apply Z.eqb_eq; exact Hidx|].
  unfold completion, run, handleRedo, bind, rendered. cbn.
  rewrite Hidx, Z.ltb_irrefl. cbn. auto.
Qed.

Lemma commit_truncates_forward_branch_witness :
  let c := run handleUndo (run handleUndo
             (run (handleCropChange r1_1) (run handleRotate initial_component))) in
  let candidate := {| brightness := 120; contrast := 100; rotation := 0; cropRatio := original |} in
  let c' := run (addToHistory candidate) c in
  completion (addToHistory candidate) c = Normal tt /\
  history c' = take (Z.to_nat (currentIndex c + 1)) (history c) ++ [candidate] /\
  (forall i, 0 <= i <= currentIndex c -> at_index (history c') i = at_index (history c) i) /\
  len (history c') = currentIndex c + 2 /\
  currentIndex c' = len (history c') - 1 /\
  current c' = Some candidate /\
  redo_disabled c' = true /\
  completion handleRedo c' = Normal tt /\
  run handleRedo c' = c'.
Proof.
  intros c candidate.
  apply (commit_truncates_forward_branch c INITIAL_STATE candidate);
    [reflexivity | reflexivity | discriminate].
Defined.

Section UndoRedoFacts.

Lemma applyState_closed (st : EditorState) (snap q : Component) :
  applyState (Some st) snap q = (Normal tt, moved q st (currentIndex q)).
Proof. destruct st. reflexivity. Qed.

Lemma handleUndo_closed (c : Component) :
  handleUndo c c =
    if currentIndex c >? 0 then
      match at_index (history c) (currentIndex c - 1) with
      | Some st => (Normal tt, moved c st (currentIndex c - 1))
      | None => (Throw TypeError, committed c (history c) (currentIndex c - 1))
      end
    else (Normal tt, c).
Proof.
  unfold handleUndo, bind, rendered. cbn.
  destruct (currentIndex c >? 0); [|reflexivity].
  destruct (at_index _ _) as [st|]; [|reflexivity].
  rewrite applyState_closed. reflexivity.
Qed.

Lemma handleRedo_closed (c : Component) :
  handleRedo c c =
    if currentIndex c <? len (history c) - 1 then
      match at_index (history c) (currentIndex c + 1) with
      | Some st => (Normal tt, moved c st (currentIndex c + 1))
      | None => (Throw TypeError, committed c (history c) (currentIndex c + 1))
      end
    else (Normal tt, c).
Proof.
  unfold handleRedo, bind, rendered. cbn.
  destruct (currentIndex c <? len (history c) - 1); [|reflexivity].
  destruct (at_index _ _) as [st|]; [|reflexivity].
  rewrite applyState_closed. reflexivity.
Qed.

Lemma undo_in_range (c : Component) :
  0 < currentIndex c < len (history c) ->
  exists st, at_index (history c) (currentIndex c - 1) = Some st /\
    handleUndo c c = (Normal tt, moved c st (currentIndex c - 1)).
Proof.
  intros Hr. destruct (at_index_defined (history c) (currentIndex c - 1)) as [st Hst]; [lia|].
  exists st. split; [exact Hst|].
  rewrite handleUndo_closed, Hst.
  destruct (Z.gtb_spec (currentIndex c) 0); [reflexivity | lia].
Qed.

Lemma redo_in_range (c : Component) :
  0 <= currentIndex c < len (history c) - 1 ->
  exists st, at_index (history c) (currentIndex c + 1) = Some st /\
    handleRedo c c = (Normal tt, moved c st (currentIndex c + 1)).
Proof.
  intros Hr. destruct (at_index_defined (history c) (currentIndex c + 1)) as [st Hst]; [lia|].
  exists st. split; [exact Hst|].
  rewrite handleRedo_closed, Hst.
  destruct (Z.ltb_spec (currentIndex c) (len (history c) - 1)); [reflexivity | lia].
Qed.

End UndoRedoFacts.

(** C4.  With the index above 0 (and inside the history, as it is after any
    sequence of commits), an undo followed at once by a redo completes and
    brings [current()] back to the value it had, with the history sequence
    and the index as they were. *)
Theorem undo_then_redo_roundtrip (c : Component) :
  0 < currentIndex c < len (history c) ->
  let c1 := run handleUndo c in
  let c2 := run handleRedo c1 in
  completion handleUndo c = Normal tt /\
  completion handleRedo c1 = Normal tt /\
  current c2 = current c /\
  Some (live c2) = current c /\
  history c2 = history c /\
  currentIndex c2 = currentIndex c.
Proof.
  intros Hr c1 c2.
  destruct (undo_in_range c Hr) as (st1 & Hst1 & Hu).
  assert (Hc1 : c1 = moved c st1 (currentIndex c - 1)).
  { subst c1. unfold run. rewrite Hu. reflexivity. }
  assert (Hr1 : 0 <= currentIndex c1 < len (history c1) - 1).
  { rewrite Hc1. cbn. lia. }
  destruct (redo_in_range c1 Hr1) as (st2 & Hst2 & Hd).
  assert (Hc2 : c2 = moved c1 st2 (currentIndex c1 + 1)).
  { subst c2. unfold run. rewrite Hd. reflexivity. }
  assert (Hst2' : at_index (history c) (currentIndex c) = Some st2).
  { rewrite Hc1 in Hst2. cbn in Hst2.
    replace (currentIndex c - 1 + 1) with (currentIndex c) in Hst2 by lia. exact Hst2. }
  unfold completion. rewrite Hu, Hd.
  split; [reflexivity|]. split; [reflexivity|].
  assert (Hi : currentIndex c2 = currentIndex c) by (rewrite Hc2, Hc1; cbn; lia).
  assert (Hh : history c2 = history c) by (rewrite Hc2, Hc1; reflexivity).
  unfold current. rewrite Hh, Hi.
  split; [reflexivity|]. split; [|auto].
  rewrite Hst2'. rewrite Hc2. reflexivity.
Qed.

Lemma undo_then_redo_roundtrip_witness :
  let c := run (handleCropChange r1_1) (run handleRotate initial_component) in
  let c1 := run handleUndo c in
  let c2 := run handleRedo c1 in
  completion handleUndo c = Normal tt /\
  completion handleRedo c1 = Normal tt /\
  current c2 = current c /\
  Some (live c2) = current c /\
  history c2 = history c /\
  currentIndex c2 = currentIndex c.
Proof.
  intros c.
  apply (undo_then_redo_roundtrip c); split; reflexivity.
Defined.

(** C7.  In a history whose index is in range, undo does nothing exactly
    when the index is 0 and otherwise lowers the index by one and makes
    [current()] the live parameters; redo does nothing exactly when the
    index is [length-1] and otherwise raises the index by one and makes
    [current()] the live parameters.  In the cases where nothing is done the
    history and the index (the whole state) stay as they were. *)
Theorem undo_redo_boundaries (c : Component) :
  0 <= currentIndex c < len (history c) ->
  (completion handleUndo c = Normal tt /\
   (run handleUndo c = c <-> currentIndex c = 0) /\
   (undo_disabled c = true <-> currentIndex c = 0) /\
   (currentIndex c <> 0 ->
      currentIndex (run handleUndo c) = currentIndex c - 1 /\
      history (run handleUndo c) = history c /\
      Some (live (run handleUndo c)) = current (run handleUndo c))) /\
  (completion handleRedo c = Normal tt /\
   (run handleRedo c = c <-> currentIndex c = len (history c) - 1) /\
   (redo_disabled c = true <-> currentIndex c = len (history c) - 1) /\
   (currentIndex c <> len (history c) - 1 ->
      currentIndex (run handleRedo c) = currentIndex c + 1 /\
      history (run handleRedo c) = history c /\
      Some (live (run handleRedo c)) = current (run handleRedo c))).
Proof.
  intros Hr. split.
  - destruct (Z.eq_dec (currentIndex c) 0) as [Hz|Hnz].
    + assert (Hu : handleUndo c c = (Normal tt, c)).
      { rewrite handleUndo_closed, Hz. reflexivity. }
      unfold completion, run, undo_disabled. rewrite Hu, Z.eqb_eq. cbn.
      repeat split; auto; contradiction.
    + destruct (undo_in_range c) as (st & Hst & Hu); [lia|].
      unfold completion, run, undo_disabled. rewrite Hu, Z.eqb_eq. cbn.
      split; [reflexivity|].
      split.
      { split; [|contradiction]. intros E. apply (f_equal currentIndex) in E. cbn in E. lia. }
      split; [tauto|]. intros _. unfold current. cbn. auto.
  - destruct (Z.eq_dec (currentIndex c) (len (history c) - 1)) as [Hz|Hnz].
    + assert (Hd : handleRedo c c = (Normal tt, c)).
      { rewrite handleRedo_closed, Hz, Z.ltb_irrefl. reflexivity. }
      unfold completion, run, redo_disabled. rewrite Hd, Z.eqb_eq. cbn.
      repeat split; auto; contradiction.
    + destruct (redo_in_range c) as (st & Hst & Hd); [lia|].
      unfold completion, run, redo_disabled. rewrite Hd, Z.eqb_eq. cbn.
      split; [reflexivity|].
      split.
      { split; [|contradiction]. intros E. apply (f_equal currentIndex) in E. cbn in E. lia. }
      split; [tauto|]. intros _. unfold current. cbn. auto.
Qed.

Lemma undo_redo_boundaries_witness :
  let c := run handleUndo (run (handleCropChange r1_1) (run handleRotate initial_component)) in
  currentIndex c = 1 /\ len (history c) = 3 /\
  run handleUndo c <> c /\ run handleRedo c <> c.
Proof.
  intros c.
  pose proof (undo_redo_boundaries c ltac:(vm_compute; split; [discriminate | reflexivity]))
    as [(_ & Hu & _) (_ & Hd & _)].
  split; [reflexivity|]. split; [reflexivity|].
  split; intros E; [apply Hu in E | apply Hd in E]; discriminate E.
Defined.

Section CommitFacts.

Lemma at_index_pushed {A} (arr : list A) (i : Z) (a : A) :
  0 <= i < len arr ->
  at_index (take (Z.to_nat (i + 1)) arr ++ [a]) (i + 1) = Some a.
Proof.
  intros Hi. unfold at_index, len in *.
  destruct (Z.ltb_spec (i + 1) 0); [lia|].
  rewrite lookup_app_r by (rewrite length_take; lia).
  rewrite length_take.
  replace (_ - _)%nat with 0%nat by lia. reflexivity.
Qed.

Lemma history_ok_pushed (h : list EditorState) (i : Z) (st : EditorState) :
  history_ok h i -> history_ok (take (Z.to_nat (i + 1)) h ++ [st]) (i + 1).
Proof.
  intros [Hi H0]. split.
  - rewrite len_app_one. unfold len in *. rewrite length_take. lia.
  - rewrite lookup_app_l by (rewrite length_take; unfold len in *; lia).
    rewrite lookup_take_lt by lia. exact H0.
Qed.

(** A commit made by a handler that has already queued updates [f] which
    leave the history and the index alone. *)
Lemma addToHistory_ok (newState : EditorState) (c q : Component) :
  Component_ok c ->
  history q = history c -> currentIndex q = currentIndex c ->
  Component_ok (addToHistory newState c q).2.
Proof.
  intros Hok Hh Hi.
  destruct (at_index_defined (history c) (currentIndex c)) as [cur Hcur];
    [apply Hok|].
  rewrite (addToHistory_closed _ _ _ _ Hcur).
  destruct (decide (cur = newState)); cbn.
  - unfold Component_ok. rewrite Hh, Hi. exact Hok.
  - apply history_ok_pushed, Hok.
Qed.

Lemma handleRotate_closed (c : Component) (cur : EditorState) :
  current c = Some cur ->
  let pushed := {| brightness := brightness (live c); contrast := contrast (live c);
                   rotation := Z.rem (rotation (live c) + 90) 360;
                   cropRatio := cropRatio (live c) |} in
  handleRotate c c =
    (Normal tt,
     if decide (cur = pushed) then moved c pushed (currentIndex c)
     else {| live := pushed;
             history := take (Z.to_nat (currentIndex c + 1)) (history c) ++ [pushed];
             currentIndex := currentIndex c + 1;
             hasAutosave := hasAutosave c |}).
Proof.
  intros Hcur pushed. unfold handleRotate, bind, rendered. cbn -[addToHistory Z.rem].
  rewrite (addToHistory_closed _ _ _ _ Hcur). fold pushed.
  destruct (decide (cur = pushed)); reflexivity.
Qed.

Lemma handleCropChange_closed (ratio : CropRatio) (c : Component) (cur : EditorState) :
  current c = Some cur ->
  let pushed := {| brightness := brightness (live c); contrast := contrast (live c);
                   rotation := rotation (live c); cropRatio := ratio |} in
  handleCropChange ratio c c =
    (Normal tt,
     if decide (cur = pushed) then moved c pushed (currentIndex c)
     else {| live := pushed;
             history := take (Z.to_nat (currentIndex c + 1)) (history c) ++ [pushed];
             currentIndex := currentIndex c + 1;
             hasAutosave := hasAutosave c |}).
Proof.
  intros Hcur pushed. unfold handleCropChange, bind, rendered. cbn -[addToHistory].
  rewrite (addToHistory_closed _ _ _ _ Hcur). fold pushed.
  destruct (decide (cur = pushed)); reflexivity.
Qed.

End CommitFacts.

(** C10.  When the live brightness or contrast differs from the snapshot at
    the current index (a slider preview that was never committed), a
    rotate and a crop-ratio change each push one snapshot, and that
    snapshot carries the live brightness and contrast. *)
Theorem discrete_commit_carries_preview (c : Component) (cur : EditorState) (ratio : CropRatio) :
  current c = Some cur ->
  brightness (live c) <> brightness cur \/ contrast (live c) <> contrast cur ->
  let rotated := {| brightness := brightness (live c); contrast := contrast (live c);
                    rotation := Z.rem (rotation (live c) + 90) 360;
                    cropRatio := cropRatio (live c) |} in
  let cropped := {| brightness := brightness (live c); contrast := contrast (live c);
                    rotation := rotation (live c); cropRatio := ratio |} in
  (completion handleRotate c = Normal tt /\
   history (run handleRotate c) =
     take (Z.to_nat (currentIndex c + 1)) (history c) ++ [rotated] /\
   current (run handleRotate c) = Some rotated) /\
  (completion (handleCropChange ratio) c = Normal tt /\
   history (run (handleCropChange ratio) c) =
     take (Z.to_nat (currentIndex c + 1)) (history c) ++ [cropped] /\
   current (run (handleCropChange ratio) c) = Some cropped).
Proof.
  intros Hcur Hdiff rotated cropped.
  pose proof (at_index_range _ _ _ Hcur) as Hr.
  split.
  - unfold completion, run. rewrite (handleRotate_closed c cur Hcur). fold rotated.
    rewrite decide_False.
    + cbn. split; [reflexivity|]. split; [reflexivity|].
      unfold current. cbn. apply at_index_pushed, Hr.
    + intros ->. cbn in Hdiff. tauto.
  - unfold completion, run. rewrite (handleCropChange_closed ratio c cur Hcur). fold cropped.
    rewrite decide_False.
    + cbn. split; [reflexivity|]. split; [reflexivity|].
      unfold current. cbn. apply at_index_pushed, Hr.
    + intros ->. cbn in Hdiff. tauto.
Qed.

Lemma discrete_commit_carries_preview_witness :
  let c := run (setBrightness 140) (run handleRotate initial_component) in
  history (run handleRotate c) =
    [INITIAL_STATE;
     {| brightness := 100; contrast := 100; rotation := 90; cropRatio := original |};
     {| brightness := 140; contrast := 100; rotation := 180; cropRatio := original |}] /\
  current (run (handleCropChange r4_3) c) =
    Some {| brightness := 140; contrast := 100; rotation := 90; cropRatio := r4_3 |}.
Proof.
  intros c.
  destruct (discrete_commit_carries_preview c
              {| brightness := 100; contrast := 100; rotation := 90; cropRatio := original |}
              r4_3 eq_refl ltac:(left; discriminate))
    as [(_ & Hh & _) (_ & _ & Hc)].
  split; [exact Hh | exact Hc].
Defined.

(** ** The invariant of the history *)

Section InvariantFacts.

Lemma handleUndo_ok (c : Component) : Component_ok c -> Component_ok (run handleUndo c).
Proof.
  intros Hok. unfold run. rewrite handleUndo_closed.
  destruct (Z.gtb_spec (currentIndex c) 0) as [Hpos|]; [|exact Hok].
  destruct (undo_in_range c) as (st & -> & _); [destruct Hok; lia|].
  destruct Hok as [Hi H0]. split; cbn; [lia | exact H0].
Qed.

Lemma handleRedo_ok (c : Component) : Component_ok c -> Component_ok (run handleRedo c).
Proof.
  intros Hok. unfold run. rewrite handleRedo_closed.
  destruct (Z.ltb_spec (currentIndex c) (len (history c) - 1)) as [Hlt|]; [|exact Hok].
  destruct (redo_in_range c) as (st & -> & _); [destruct Hok; lia|].
  destruct Hok as [Hi H0]. split; cbn; [lia | exact H0].
Qed.

Lemma handleReset_ok (c : Component) : Component_ok (run handleReset c).
Proof. split; cbn; [unfold len; cbn; lia | reflexivity]. Qed.

Lemma handleRestoreAutosave_ok (image : string) (s : Slot) (c : Component) :
  Component_ok c -> Slot_ok s -> Component_ok (run (handleRestoreAutosave image s) c).
Proof.
  intros Hc Hs. unfold run, handleRestoreAutosave, try_catch.
  destruct s as [| |parsed]; cbn; try exact Hc.
  destruct (String.eqb _ _); cbn; [exact Hs | exact Hc].
Qed.

End InvariantFacts.

(** One event keeps the invariant of the component and of the slot. *)
Lemma step_ok (image : string) (e : Event) (w : World) :
  World_ok w -> World_ok (step image e w).
Proof.
  intros [Hc Hs].
  destruct e; split; cbn; try exact Hs; try exact Hc.
  - unfold run, commitSliderChange, bind, rendered. cbn -[addToHistory].
    apply addToHistory_ok; auto.
  - unfold run, handleRotate, bind, rendered. cbn -[addToHistory Z.rem].
    apply addToHistory_ok; auto.
  - unfold run, handleCropChange, bind, rendered. cbn -[addToHistory].
    apply addToHistory_ok; auto.
  - apply handleUndo_ok, Hc.
  - apply handleRedo_ok, Hc.
  - apply handleReset_ok.
  - apply handleRestoreAutosave_ok; assumption.
Qed.

(** C5.  Every operation on a mounted editor (slider moves, the commits made
    by slider release, rotate and crop change, undo, redo, reset, restore
    from the autosave slot, and the autosave timer that fills the slot)
    keeps the history index within [0 <= index < length] and the default
    parameters at position 0, both in the component and in the stored
    snapshot. *)
Theorem operations_preserve_history_invariant (image : string) (e : Event) (w : World) :
  World_ok w -> World_ok (step image e w).
Proof. apply step_ok. Qed.


Lemma operations_preserve_history_invariant_witness :
  World_ok (step "abc" Restore
    {| comp := run handleRotate initial_component;
       slot := Item (stateToSave "abc" 17 (run (handleCropChange r1_1) initial_component)) |}).
Proof.
  apply operations_preserve_history_invariant.
  split; (split; [vm_compute; split; [discriminate | reflexivity] | reflexivity]).
Defined.

(** The invariant holds in every state a session reaches. *)
Corollary sessions_keep_history_invariant (image : string) (s : Slot) (es : list Event) :
  Slot_ok s -> World_ok (steps image es (mount image s)).
Proof.
  intros Hs. unfold steps.
  assert (H0 : World_ok (mount image s)).
  { split; [|exact Hs]. unfold mount, run, autosaveCheck, try_catch. cbn.
    destruct s as [| |parsed]; cbn; try (split; [unfold len; cbn; lia | reflexivity]).
    destruct (String.eqb _ _); cbn; (split; [unfold len; cbn; lia | reflexivity]). }
  revert H0. generalize (mount image s). induction es as [|e es IH]; intros w Hw.
  - exact Hw.
  - cbn. apply IH, step_ok, Hw.
Qed.

(** ** The signature gate *)

Example signature_of_short_source : getImageSignature "abc" = "3-abc-abc".
Proof. vm_compute. reflexivity. Qed.

(** C9.  After the mount effect the restore button is shown exactly when the
    slot holds a snapshot whose stored signature equals the signature of
    the loaded source, the signature of a non-empty source being its
    length, its first 30 and its last 30 characters joined by dashes.  A
    snapshot saved for the same source matches; a snapshot whose signature
    differs does not, a restore does not apply it, and neither the mount
    effect nor the restore removes it from the slot. *)
Theorem restore_is_signature_gated (image : string) :
  (forall s : Slot,
     hasAutosave (comp (mount image s)) = true <->
     exists parsed, s = Item parsed /\ imageSignature parsed = getImageSignature image) /\
  (image <> "" ->
     getImageSignature image =
       pretty (String.length image) +:+ "-" +:+ String.substring 0 30 image +:+ "-"
       +:+ String.substring (String.length image - 30) 30 image) /\
  (forall (image' : string) (now : Z) (c : Component),
     image' = image ->
     hasAutosave (comp (mount image (Item (stateToSave image' now c)))) = true) /\
  (forall parsed : SavedState,
     imageSignature parsed <> getImageSignature image ->
     hasAutosave (comp (mount image (Item parsed))) = false /\
     slot (mount image (Item parsed)) = Item parsed /\
     forall w : World, slot w = Item parsed -> step image Restore w = w).
Proof.
  split; [|split; [|split]].
  - intros s. unfold mount, run, autosaveCheck, try_catch. cbn.
    destruct s as [| |parsed]; cbn.
    + split; [discriminate | intros (p & [=] & _)].
    + split; [discriminate | intros (p & [=] & _)].
    + destruct (String.eqb_spec (imageSignature parsed) (getImageSignature image)) as [E|E]; cbn.
      * split; [intros _; exists parsed; auto | reflexivity].
      * split; [discriminate | intros (p & [= <-] & Hp); contradiction].
  - intros Hne. destruct image; [contradiction | reflexivity].
  - intros image' now c ->. unfold mount, run, autosaveCheck, try_catch. cbn.
    rewrite String.eqb_refl. reflexivity.
  - intros parsed Hne.
    apply String.eqb_neq in Hne.
    split; [|split].
    + unfold mount, run, autosaveCheck, try_catch. cbn. rewrite Hne. reflexivity.
    + reflexivity.
    + intros [c s] Hs. cbn in Hs. subst s. cbn.
      unfold run, handleRestoreAutosave, try_catch. rewrite Hne. reflexivity.
Qed.

Lemma restore_is_signature_gated_witness :
  hasAutosave (comp (mount "data:image/png;base64,iVBORw0KGgo="
     (Item (stateToSave "data:image/png;base64,iVBORw0KGgo=" 1700000000000
              (run handleRotate initial_component))))) = true /\
  step "data:image/png;base64,iVBORw0KGgo=" Restore
    {| comp := initial_component;
       slot := Item (stateToSave "data:image/png;base64,iVBORw0KGgoA" 1700000000000
                       (run handleRotate initial_component)) |} =
    {| comp := initial_component;
       slot := Item (stateToSave "data:image/png;base64,iVBORw0KGgoA" 1700000000000
                       (run handleRotate initial_component)) |}.
Proof.
  destruct (restore_is_signature_gated "data:image/png;base64,iVBORw0KGgo=")
    as (_ & _ & Hsame & Hdiff).
  split.
  - apply Hsame. reflexivity.
  - eapply Hdiff; [|reflexivity]. vm_compute. discriminate.
Defined.

(** ** Apply *)

(** C6, as the code has it.  When the source does not decode, Apply calls
    neither [onSave] nor anything else (the caller is told nothing), no
    image is produced, and the app keeps the editor mounted with its state
    as it was. *)
Theorem failed_decode_is_silent
    (decode : string -> option (Z * Z)) (context2d : bool) (toDataURL : Canvas -> string)
    (image : string) (a : App) (c : Component) :
  decode image = None ->
  generateFinalImage decode context2d toDataURL image c = [] /\
  (forall newImage, SaveCalled newImage ∉ generateFinalImage decode context2d toDataURL image c) /\
  apply decode context2d toDataURL image a c = (a, c) /\
  editing (apply decode context2d toDataURL image a c).1 = editing a.
Proof.
  intros Hd. unfold apply, generateFinalImage. rewrite Hd. cbn.
  repeat split; auto. intros newImage Hin. inversion Hin.
Qed.

Lemma failed_decode_is_silent_witness :
  let decode := fun image : string =>
    if String.prefix "data:image/" image then Some (1000, 500) else None in
  let a := {| remixSourceImage := Some "data:text/plain;base64,aGVsbG8=";
              isEditingRemixSource := true |} in
  generateFinalImage decode true (fun _ => "data:image/png;base64,")
    "data:text/plain;base64,aGVsbG8=" initial_component = [] /\
  editing (apply decode true (fun _ => "data:image/png;base64,")
             "data:text/plain;base64,aGVsbG8=" a initial_component).1 = true.
Proof.
  intros decode a.
  destruct (failed_decode_is_silent decode true (fun _ => "data:image/png;base64,")
              "data:text/plain;base64,aGVsbG8=" a initial_component eq_refl)
    as (Hn & _ & _ & He).
  split; [exact Hn | rewrite He; reflexivity].
Defined.

(** C6, as stated, fails: for a source that does not decode the caller is
    told nothing at all, so no decode error is reported. *)
Lemma failed_decode_not_reported :
  let decode := fun image : string =>
    if String.prefix "data:image/" image then Some (1000, 500) else None in
  decode "data:text/plain;base64,aGVsbG8=" = None /\
  ~ caller_told (generateFinalImage decode true (fun _ => "data:image/png;base64,")
                   "data:text/plain;base64,aGVsbG8=" initial_component).
Proof.
  cbn. split; [reflexivity|]. unfold caller_told. intros H. apply H. reflexivity.
Qed.

(* ===================================================================== *)
(** * Further properties of the editor *)
(* ===================================================================== *)

(** ** More on the crop *)

Section CropShape.
Open Scope Q_scope.


Lemma Qltb_false (a b : Q) : JS.Qltb a b = false <-> b <= a.
Proof.
  destruct (JS.Qltb a b) eqn:E.
  - apply Qltb_spec in E. split; [discriminate | intros; lra].
  - split; [intros _ | reflexivity].
    destruct (Qlt_le_dec a b) as [Hlt|Hle]; [|exact Hle].
    apply Qltb_spec in Hlt. congruence.
Qed.

(** The two dimensions of the crop, whichever branch is taken. *)
Lemma crop_dimensions (W H : Q) (ratio : CropRatio) (w h : Z) :
  0 < H -> ratio_terms ratio = Some (w, h) ->
  exists cw ch : Q,
    width (getCropDimensions (JS.Fin W) (JS.Fin H) ratio) = JS.Fin cw /\
    height (getCropDimensions (JS.Fin W) (JS.Fin H) ratio) = JS.Fin ch /\
    x (getCropDimensions (JS.Fin W) (JS.Fin H) ratio) = JS.Fin ((W - cw) / 2) /\
    y (getCropDimensions (JS.Fin W) (JS.Fin H) ratio) = JS.Fin ((H - ch) / 2) /\
    cw == ch * target w h /\
    ((cw == W /\ ch <= H) \/ (ch == H /\ cw <= W)).
Proof.
  intros HH Hr.
  rewrite (getCropDimensions_closed W H ratio w h HH Hr).
  destruct (ratio_components_terms _ _ _ Hr) as (_ & Hw & Hh).
  pose proof (target_pos w h Hw Hh) as Ht.
  destruct (JS.Qltb (target w h) (W / H)) eqn:E.
  - apply Qltb_spec in E. pose proof (wide_fits W H _ HH E) as Hfit.
    exists (H * target w h), H. cbn.
    repeat split; try reflexivity. right. split; [reflexivity | exact Hfit].
  - apply Qltb_false in E. pose proof (tall_fits W H _ HH Ht E) as Hfit.
    exists W, (W / target w h). cbn.
    repeat split; try reflexivity.
    + field. lra.
    + left. split; [reflexivity | exact Hfit].
Qed.

End CropShape.








(** ** More on the history *)

Section HandlerFacts.

Lemma addToHistory_undefined (newState : EditorState) (snap q : Component) :
  current snap = None -> addToHistory newState snap q = (Throw TypeError, q).
Proof.
  unfold current, addToHistory, bind, rendered. intros ->. reflexivity.
Qed.

Lemma at_index_lookup {A} (arr : list A) (i : Z) :
  0 <= i -> at_index arr i = arr !! Z.to_nat i.
Proof. intros Hi. unfold at_index. destruct (Z.ltb_spec i 0); [lia | reflexivity]. Qed.

Lemma current_defined (c : Component) :
  is_Some (current c) <-> 0 <= currentIndex c < len (history c).
Proof.
  split.
  - intros [st Hst]. exact (at_index_range _ _ _ Hst).
  - intros Hr. destruct (at_index_defined _ _ Hr) as [st Hst]. exists st. exact Hst.
Qed.

Lemma commit_completes (newState : EditorState) (c q : Component) :
  Component_ok c -> (addToHistory newState c q).1 = Normal tt.
Proof.
  intros [Hr _]. destruct (at_index_defined _ _ Hr) as [cur Hcur].
  rewrite (addToHistory_closed _ _ _ _ Hcur). reflexivity.
Qed.

Lemma undo_completes (c : Component) : Component_ok c -> completion handleUndo c = Normal tt.
Proof.
  intros [Hr _]. unfold completion. rewrite handleUndo_closed.
  destruct (Z.gtb_spec (currentIndex c) 0); [|reflexivity].
  destruct (at_index_defined (history c) (currentIndex c - 1)) as [st ->]; [lia|].
  reflexivity.
Qed.

Lemma redo_completes (c : Component) : Component_ok c -> completion handleRedo c = Normal tt.
Proof.
  intros [Hr _]. unfold completion. rewrite handleRedo_closed.
  destruct (Z.ltb_spec (currentIndex c) (len (history c) - 1)); [|reflexivity].
  destruct (at_index_defined (history c) (currentIndex c + 1)) as [st ->]; [lia|].
  reflexivity.
Qed.

End HandlerFacts.

(** X5.  In a state whose index is inside the history no handler of the
    editor throws: the slider commit, rotate, crop change, undo, redo,
    reset, restore and the mount effect all complete normally. *)
Theorem handlers_complete (image : string) (s : Slot) (ratio : CropRatio) (c : Component) :
  Component_ok c ->
  completion commitSliderChange c = Normal tt /\
  completion handleRotate c = Normal tt /\
  completion (handleCropChange ratio) c = Normal tt /\
  completion handleUndo c = Normal tt /\
  completion handleRedo c = Normal tt /\
  completion handleReset c = Normal tt /\
  completion (handleRestoreAutosave image s) c = Normal tt /\
  completion (autosaveCheck image s) c = Normal tt.
Proof.
  intros Hok.
  split; [unfold completion, commitSliderChange, bind, rendered; cbn -[addToHistory];
          apply commit_completes, Hok|].
  split; [unfold completion, handleRotate, bind, rendered; cbn -[addToHistory Z.rem];
          apply commit_completes, Hok|].
  split; [unfold completion, handleCropChange, bind, rendered; cbn -[addToHistory];
          apply commit_completes, Hok|].
  split; [apply undo_completes, Hok|].
  split; [apply redo_completes, Hok|].
  split; [reflexivity|].
  split.
  - unfold completion, handleRestoreAutosave, try_catch.
    destruct s as [| |parsed]; cbn; try reflexivity.
    destruct (String.eqb _ _); reflexivity.
  - unfold completion, autosaveCheck, try_catch.
    destruct s as [| |parsed]; cbn; try reflexivity.
    destruct (String.eqb _ _); reflexivity.
Qed.

Lemma handlers_complete_witness :
  let c := run handleUndo (run (handleCropChange r1_1) (run handleRotate initial_component)) in
  completion handleRotate c = Normal tt /\ completion handleRedo c = Normal tt.
Proof.
  intros c.
  destruct (handlers_complete "abc" Malformed r4_3 c) as (_ & Hr & _ & _ & Hd & _).
  - split; [vm_compute; split; [discriminate | reflexivity] | reflexivity].
  - split; [exact Hr | exact Hd].
Defined.

(** X6.  A commit completes exactly when the index is inside the history;
    otherwise reading [history[currentIndex].brightness] throws a
    TypeError before anything is queued, so the state stays as it was. *)
Theorem commit_outside_history_throws (candidate : EditorState) (c : Component) :
  (completion (addToHistory candidate) c = Normal tt <->
     0 <= currentIndex c < len (history c)) /\
  (~ 0 <= currentIndex c < len (history c) ->
     completion (addToHistory candidate) c = Throw TypeError /\
     run (addToHistory candidate) c = c).
Proof.
  destruct (current c) as [cur|] eqn:Hcur.
  - pose proof (at_index_range _ _ _ Hcur) as Hr.
    unfold completion. rewrite (addToHistory_closed _ _ _ _ Hcur). cbn.
    split; [tauto | intros Hn; contradiction].
  - assert (~ 0 <= currentIndex c < len (history c)) as Hn.
    { intros Hr. apply current_defined in Hr. rewrite Hcur in Hr. destruct Hr; discriminate. }
    unfold completion, run. rewrite (addToHistory_undefined _ _ _ Hcur). cbn.
    split; [split; [discriminate | intros; contradiction] | auto].
Qed.

Lemma commit_outside_history_throws_witness :
  let c := {| live := INITIAL_STATE; history := [INITIAL_STATE]; currentIndex := 5;
              hasAutosave := true |} in
  completion (addToHistory {| brightness := 120; contrast := 100; rotation := 0;
                              cropRatio := original |}) c = Throw TypeError /\
  run (addToHistory {| brightness := 120; contrast := 100; rotation := 0;
                       cropRatio := original |}) c = c.
Proof.
  intros c.
  apply (proj2 (commit_outside_history_throws
                  {| brightness := 120; contrast := 100; rotation := 0; cropRatio := original |}
                  c)).
  unfold len. cbn. lia.
Defined.

(** X7.  Committing a new snapshot and undoing it: the undo completes,
    [current()] and the live parameters are the snapshot that was current
    before the commit, the index is back, redo is enabled, and a redo
    brings the committed snapshot back. *)
Theorem commit_then_undo (c : Component) (cur candidate : EditorState) :
  current c = Some cur -> candidate <> cur ->
  let c1 := run (addToHistory candidate) c in
  let c2 := run handleUndo c1 in
  let c3 := run handleRedo c2 in
  completion handleUndo c1 = Normal tt /\
  current c2 = Some cur /\ live c2 = cur /\ currentIndex c2 = currentIndex c /\
  redo_disabled c2 = false /\
  completion handleRedo c2 = Normal tt /\
  current c3 = Some candidate /\ live c3 = candidate /\ history c3 = history c1.
Proof.
  intros Hcur Hne c1 c2 c3.
  pose proof (at_index_range _ _ _ Hcur) as Hr.
  assert (Hc1 : c1 = committed c
            (take (Z.to_nat (currentIndex c + 1)) (history c) ++ [candidate])
            (currentIndex c + 1)).
  { subst c1. unfold run. rewrite (addToHistory_closed _ _ _ _ Hcur).
    rewrite decide_False by congruence. reflexivity. }
  assert (Hlen : len (history c1) = currentIndex c + 2).
  { rewrite Hc1. cbn. rewrite len_app_one. unfold len in *. rewrite length_take. lia. }
  assert (Hprev : at_index (history c1) (currentIndex c) = Some cur).
  { rewrite Hc1. cbn. unfold current in Hcur.
    rewrite at_index_lookup in Hcur |- * by lia.
    rewrite lookup_app_l by (rewrite length_take; unfold len in *; lia).
    rewrite lookup_take_lt by lia. exact Hcur. }
  assert (Hi1 : currentIndex c1 = currentIndex c + 1) by (rewrite Hc1; reflexivity).
  destruct (undo_in_range c1) as (st & Hst & Hu); [lia|].
  rewrite Hi1 in Hst. replace (currentIndex c + 1 - 1) with (currentIndex c) in Hst by lia.
  rewrite Hprev in Hst. injection Hst as <-.
  assert (Hc2 : c2 = moved c1 cur (currentIndex c)).
  { subst c2. unfold run. rewrite Hu. unfold moved. cbn [snd]. f_equal. lia. }
  destruct (redo_in_range c2) as (st & Hst & Hd).
  { rewrite Hc2. cbn. lia. }
  assert (Hlast : at_index (history c1) (currentIndex c + 1) = Some candidate).
  { rewrite Hc1. cbn. apply at_index_pushed, Hr. }
  rewrite Hc2 in Hst. cbn in Hst. rewrite Hlast in Hst. injection Hst as <-.
  assert (Hc3 : c3 = moved c2 candidate (currentIndex c + 1)).
  { subst c3. unfold run. rewrite Hd. rewrite Hc2. reflexivity. }
  unfold completion. rewrite Hu, Hd.
  split; [reflexivity|].
  split; [unfold current; rewrite Hc2; cbn; exact Hprev|].
  split; [rewrite Hc2; reflexivity|].
  split; [rewrite Hc2; reflexivity|].
  split.
  { unfold redo_disabled. rewrite Hc2. cbn. apply Z.eqb_neq. lia. }
  split; [reflexivity|].
  split; [unfold current; rewrite Hc3, Hc2; cbn; exact Hlast|].
  split; [rewrite Hc3; reflexivity | rewrite Hc3, Hc2; reflexivity].
Qed.

Lemma commit_then_undo_witness :
  let c := run (setBrightness 150) (run handleRotate initial_component) in
  let c1 := run commitSliderChange c in
  let c2 := run handleUndo c1 in
  live c2 = {| brightness := 100; contrast := 100; rotation := 90; cropRatio := original |} /\
  live (run handleRedo c2) =
    {| brightness := 150; contrast := 100; rotation := 90; cropRatio := original |}.
Proof.
  intros c.
  destruct (commit_then_undo c
              {| brightness := 100; contrast := 100; rotation := 90; cropRatio := original |}
              {| brightness := 150; contrast := 100; rotation := 90; cropRatio := original |}
              eq_refl ltac:(discriminate))
    as (_ & _ & Hl & _ & _ & _ & _ & Hl3 & _).
  split; [exact Hl | exact Hl3].
Defined.

(** X8.  Redo followed at once by undo: with the index below the last
    position both complete, the history and the index are as before and
    the live parameters are [current()]. *)
Theorem redo_then_undo_roundtrip (c : Component) :
  0 <= currentIndex c < len (history c) - 1 ->
  let c1 := run handleRedo c in
  let c2 := run handleUndo c1 in
  completion handleRedo c = Normal tt /\
  completion handleUndo c1 = Normal tt /\
  history c2 = history c /\
  currentIndex c2 = currentIndex c /\
  Some (live c2) = current c.
Proof.
  intros Hr c1 c2.
  destruct (redo_in_range c Hr) as (st1 & Hst1 & Hd).
  assert (Hc1 : c1 = moved c st1 (currentIndex c + 1)).
  { subst c1. unfold run. rewrite Hd. reflexivity. }
  destruct (undo_in_range c1) as (st2 & Hst2 & Hu).
  { rewrite Hc1. cbn. lia. }
  assert (Hc2 : c2 = moved c1 st2 (currentIndex c1 - 1)).
  { subst c2. unfold run. rewrite Hu. reflexivity. }
  rewrite Hc1 in Hst2. cbn in Hst2.
  replace (currentIndex c + 1 - 1) with (currentIndex c) in Hst2 by lia.
  unfold completion. rewrite Hd, Hu.
  split; [reflexivity|]. split; [reflexivity|].
  split; [rewrite Hc2, Hc1; reflexivity|].
  split; [rewrite Hc2, Hc1; cbn; lia|].
  unfold current. rewrite Hst2, Hc2. reflexivity.
Qed.

Lemma redo_then_undo_roundtrip_witness :
  let c := run handleUndo (run (handleCropChange r1_1) (run handleRotate initial_component)) in
  history (run handleUndo (run handleRedo c)) = history c /\
  currentIndex (run handleUndo (run handleRedo c)) = currentIndex c /\
  Some (live (run handleUndo (run handleRedo c))) = current c.
Proof.
  intros c.
  destruct (redo_then_undo_roundtrip c) as (_ & _ & Hh & Hi & Hl).
  - vm_compute. split; [discriminate | reflexivity].
  - auto.
Defined.

(** X9.  Reset works from any state, also one whose index is outside the
    history: it completes, the history is the single default entry, the
    index is 0, the live parameters are the defaults, undo and redo are
    both disabled and the invariant of the history holds again.  The
    restore button is left as it was. *)
Theorem reset_from_any_state (c : Component) :
  completion handleReset c = Normal tt /\
  history (run handleReset c) = [INITIAL_STATE] /\
  currentIndex (run handleReset c) = 0 /\
  live (run handleReset c) = INITIAL_STATE /\
  current (run handleReset c) = Some INITIAL_STATE /\
  undo_disabled (run handleReset c) = true /\
  redo_disabled (run handleReset c) = true /\
  run handleUndo (run handleReset c) = run handleReset c /\
  run handleRedo (run handleReset c) = run handleReset c /\
  hasAutosave (run handleReset c) = hasAutosave c /\
  Component_ok (run handleReset c).
Proof.
  repeat (split; [reflexivity|]). apply handleReset_ok.
Qed.

Section GestureFacts.

Lemma EditorState_eta (l : EditorState) :
  {| brightness := brightness l; contrast := contrast l;
     rotation := rotation l; cropRatio := cropRatio l |} = l.
Proof. destruct l. reflexivity. Qed.

Lemma commitSliderChange_cases (c : Component) :
  commitSliderChange c c = addToHistory (live c) c c.
Proof.
  unfold commitSliderChange, bind, rendered. cbn -[addToHistory].
  rewrite EditorState_eta. reflexivity.
Qed.

Lemma steps_cons (image : string) (e : Event) (es : list Event) (w : World) :
  steps image (e :: es) w = steps image es (step image e w).
Proof. reflexivity. Qed.

Lemma steps_snoc (image : string) (e : Event) (es : list Event) (w : World) :
  steps image (es ++ [e]) w = step image e (steps image es w).
Proof. unfold steps. rewrite foldl_app. reflexivity. Qed.

(** Slider moves touch the live parameters only. *)
Lemma slides_keep_history (image : string) (es : list Event) (w : World) :
  Forall (fun e => exists v, e = SlideBrightness v \/ e = SlideContrast v) es ->
  history (comp (steps image es w)) = history (comp w) /\
  currentIndex (comp (steps image es w)) = currentIndex (comp w) /\
  hasAutosave (comp (steps image es w)) = hasAutosave (comp w) /\
  rotation (live (comp (steps image es w))) = rotation (live (comp w)) /\
  cropRatio (live (comp (steps image es w))) = cropRatio (live (comp w)) /\
  slot (steps image es w) = slot w.
Proof.
  intros Hes. revert w. induction Hes as [|e es (v & [-> | ->]) _ IH]; intros w.
  - repeat split; reflexivity.
  - rewrite steps_cons. destruct (IH (step image (SlideBrightness v) w))
      as (-> & -> & -> & -> & -> & ->). repeat split; reflexivity.
  - rewrite steps_cons. destruct (IH (step image (SlideContrast v) w))
      as (-> & -> & -> & -> & -> & ->). repeat split; reflexivity.
Qed.

End GestureFacts.

(** X10.  A slider gesture makes at most one history entry.  Any number of
    slider moves leaves the history and the index alone; the release then
    pushes the live parameters once if they differ from [current()] and
    pushes nothing if they are equal to it. *)
Theorem slider_gesture_commits_once
    (image : string) (es : list Event) (w : World) (cur : EditorState) :
  Forall (fun e => exists v, e = SlideBrightness v \/ e = SlideContrast v) es ->
  current (comp w) = Some cur ->
  let w1 := steps image es w in
  let w2 := step image SliderRelease w1 in
  history (comp w1) = history (comp w) /\
  currentIndex (comp w1) = currentIndex (comp w) /\
  live (comp w2) = live (comp w1) /\
  (live (comp w1) = cur ->
     history (comp w2) = history (comp w) /\ currentIndex (comp w2) = currentIndex (comp w)) /\
  (live (comp w1) <> cur ->
     history (comp w2) =
       take (Z.to_nat (currentIndex (comp w) + 1)) (history (comp w)) ++ [live (comp w1)] /\
     currentIndex (comp w2) = currentIndex (comp w) + 1).
Proof.
  intros Hes Hcur w1 w2.
  destruct (slides_keep_history image es w Hes) as (Hh & Hi & _).
  fold w1 in Hh, Hi.
  assert (Hcur1 : current (comp w1) = Some cur).
  { unfold current. rewrite Hh, Hi. exact Hcur. }
  assert (Hw2 : comp w2 = (addToHistory (live (comp w1)) (comp w1) (comp w1)).2).
  { subst w2. cbn. unfold run. rewrite commitSliderChange_cases. reflexivity. }
  rewrite (addToHistory_closed _ _ _ _ Hcur1) in Hw2. cbn [snd] in Hw2.
  split; [exact Hh|]. split; [exact Hi|].
  destruct (decide (cur = live (comp w1))) as [E|E]; rewrite Hw2.
  - split; [reflexivity|]. split; [auto | intros Hn; congruence].
  - split; [reflexivity|]. split; [intros Hn; congruence|].
    intros _. cbn. rewrite Hh, Hi. auto.
Qed.

Lemma slider_gesture_commits_once_witness :
  let w := mount "abc" NoItem in
  let w2 := steps "abc" [SlideBrightness 101; SlideBrightness 117; SlideContrast 90;
                          SlideBrightness 130; SliderRelease] w in
  history (comp w2) =
    [INITIAL_STATE;
     {| brightness := 130; contrast := 90; rotation := 0; cropRatio := original |}] /\
  currentIndex (comp w2) = 1.
Proof.
  intros w.
  destruct (slider_gesture_commits_once "abc"
              [SlideBrightness 101; SlideBrightness 117; SlideContrast 90; SlideBrightness 130]
              w INITIAL_STATE) as (_ & _ & _ & _ & Hpush).
  - repeat constructor; eexists; (left + right); reflexivity.
  - reflexivity.
  - apply Hpush. discriminate.
Defined.

Section UndoAll.

Lemma undo_iterated (n : nat) (c : Component) :
  Component_ok c -> Z.of_nat n <= currentIndex c ->
  let c' := Nat.iter n (run handleUndo) c in
  history c' = history c /\
  currentIndex c' = currentIndex c - Z.of_nat n /\
  hasAutosave c' = hasAutosave c /\
  ((0 < n)%nat -> Some (live c') = current c').
Proof.
  intros Hok. induction n as [|n IH]; intros Hn c'.
  - subst c'. cbn. repeat split; lia.
  - destruct IH as (Hh & Hi & Ha & _); [lia|].
    subst c'. set (d := Nat.iter n (run handleUndo) c) in *.
    change (Nat.iter (S n) (run handleUndo) c) with (run handleUndo d).
    destruct (undo_in_range d) as (st & Hst & Hu).
    { rewrite Hh, Hi. destruct Hok as [Hr _]. lia. }
    assert (Hd : run handleUndo d = moved d st (currentIndex d - 1))
      by (unfold run; rewrite Hu; reflexivity).
    rewrite Hd. cbn.
    split; [exact Hh|]. split; [lia|]. split; [exact Ha|].
    intros _. unfold current. cbn. rewrite Hst. reflexivity.
Qed.

End UndoAll.

(** X11.  Undoing as many times as the index says leads back to the start:
    the index is 0, the undo button is disabled, the history is kept whole
    (every step can be redone) and, if at least one undo was made, the live
    parameters are the defaults. *)
Theorem undo_to_the_start (c : Component) :
  Component_ok c ->
  let c' := Nat.iter (Z.to_nat (currentIndex c)) (run handleUndo) c in
  currentIndex c' = 0 /\
  undo_disabled c' = true /\
  history c' = history c /\
  (0 < currentIndex c -> live c' = INITIAL_STATE).
Proof.
  intros Hok c'.
  destruct Hok as [Hr H0].
  destruct (undo_iterated (Z.to_nat (currentIndex c)) c (conj Hr H0)) as (Hh & Hi & _ & Hl);
    [lia|].
  fold c' in Hh, Hi, Hl.
  assert (Hz : currentIndex c' = 0) by lia.
  split; [exact Hz|]. split; [unfold undo_disabled; rewrite Hz; reflexivity|].
  split; [exact Hh|].
  intros Hpos. specialize (Hl ltac:(lia)).
  unfold current in Hl. rewrite Hh, Hz in Hl.
  rewrite at_index_lookup in Hl by lia. change (Z.to_nat 0) with 0%nat in Hl.
  rewrite H0 in Hl. congruence.
Qed.

Lemma undo_to_the_start_witness :
  let c := run (handleCropChange r1_1) (run handleRotate initial_component) in
  currentIndex (run handleUndo (run handleUndo c)) = 0 /\
  live (run handleUndo (run handleUndo c)) = INITIAL_STATE.
Proof.
  intros c.
  assert (Hok : Component_ok c)
    by (split; [vm_compute; split; [discriminate | reflexivity] | reflexivity]).
  pose proof (undo_to_the_start c Hok) as H.
  vm_compute in H. vm_compute.
  destruct H as (Hi & _ & _ & Hl).
  split; [exact Hi | apply Hl; reflexivity].
Defined.

(** ** Rotation *)

Section RotationFacts.

Lemma quarter_turn (r : Z) :
  0 <= r < 360 -> Z.rem (r + 90) 360 = if r <? 270 then r + 90 else r - 270.
Proof.
  intros Hr. rewrite Z.rem_mod_nonneg by lia.
  destruct (Z.ltb_spec r 270).
  - apply Z.mod_small. lia.
  - symmetry. apply (Z.mod_unique _ _ 1); lia.
Qed.

Lemma live_after_rotate (c : Component) :
  live (run handleRotate c) =
    {| brightness := brightness (live c); contrast := contrast (live c);
       rotation := Z.rem (rotation (live c) + 90) 360; cropRatio := cropRatio (live c) |}.
Proof.
  unfold run, handleRotate, bind, rendered. cbn -[addToHistory Z.rem].
  destruct (current c) as [cur|] eqn:Hcur.
  - rewrite (addToHistory_closed _ _ _ _ Hcur). destruct (decide _); reflexivity.
  - rewrite (addToHistory_undefined _ _ _ Hcur). reflexivity.
Qed.

(** One rotation from a state whose live parameters are committed. *)
Lemma rotate_committed (c : Component) :
  Some (live c) = current c -> 0 <= rotation (live c) < 360 ->
  Some (live (run handleRotate c)) = current (run handleRotate c) /\
  currentIndex (run handleRotate c) = currentIndex c + 1 /\
  len (history (run handleRotate c)) = currentIndex c + 2 /\
  0 <= rotation (live (run handleRotate c)) < 360.
Proof.
  intros Hcur Hr. symmetry in Hcur.
  pose proof (at_index_range _ _ _ Hcur) as Hi.
  unfold run. rewrite (handleRotate_closed c (live c) Hcur).
  rewrite decide_False.
  - cbn -[Z.rem]. unfold current. cbn -[Z.rem].
    rewrite at_index_pushed by exact Hi.
    rewrite len_app_one. unfold len in *. rewrite length_take.
    rewrite quarter_turn by exact Hr.
    split; [reflexivity|]. split; [reflexivity|]. split; [lia|].
    destruct (Z.ltb_spec (rotation (live c)) 270); lia.
  - intros E. apply (f_equal rotation) in E. cbn -[Z.rem] in E.
    rewrite quarter_turn in E by exact Hr.
    destruct (Z.ltb_spec (rotation (live c)) 270); lia.
Qed.

End RotationFacts.

(** X12.  Four presses of the rotate button bring the live parameters back
    (for a rotation within [0, 360)), so Apply then produces what it would
    have produced before; but when the live parameters were committed the
    history has grown by four entries, one per press. *)
Theorem four_rotations
    (decode : string -> option (Z * Z)) (context2d : bool) (toDataURL : Canvas -> string)
    (image : string) (c : Component) :
  0 <= rotation (live c) < 360 ->
  let c4 := run handleRotate (run handleRotate (run handleRotate (run handleRotate c))) in
  live c4 = live c /\
  generateFinalImage decode context2d toDataURL image c4 =
    generateFinalImage decode context2d toDataURL image c /\
  (Some (live c) = current c ->
     currentIndex c4 = currentIndex c + 4 /\ len (history c4) = currentIndex c + 5).
Proof.
  intros Hr c4.
  assert (Hl : live c4 = live c).
  { subst c4. rewrite !live_after_rotate. cbn -[Z.rem].
    destruct (live c) as [b k r z]. cbn -[Z.rem] in *. f_equal.
    rewrite (quarter_turn r) by lia.
    destruct (Z.ltb_spec r 270).
    - rewrite (quarter_turn (r + 90)) by lia.
      destruct (Z.ltb_spec (r + 90) 270).
      + rewrite (quarter_turn (r + 90 + 90)) by lia.
        destruct (Z.ltb_spec (r + 90 + 90) 270).
        * rewrite quarter_turn by lia.
          destruct (Z.ltb_spec (r + 90 + 90 + 90) 270); lia.
        * rewrite quarter_turn by lia.
          destruct (Z.ltb_spec (r + 90 + 90 - 270) 270); lia.
      + rewrite (quarter_turn (r + 90 - 270)) by lia.
        destruct (Z.ltb_spec (r + 90 - 270) 270); [|lia].
        rewrite quarter_turn by lia.
        destruct (Z.ltb_spec (r + 90 - 270 + 90) 270); lia.
    - rewrite (quarter_turn (r - 270)) by lia.
      destruct (Z.ltb_spec (r - 270) 270); [|lia].
      rewrite (quarter_turn (r - 270 + 90)) by lia.
      destruct (Z.ltb_spec (r - 270 + 90) 270); [|lia].
      rewrite quarter_turn by lia.
      destruct (Z.ltb_spec (r - 270 + 90 + 90) 270); lia. }
  split; [exact Hl|].
  split; [unfold generateFinalImage; rewrite Hl; reflexivity|].
  intros Hcur. subst c4.
  destruct (rotate_committed c Hcur Hr) as (H1 & I1 & _ & R1).
  destruct (rotate_committed _ H1 R1) as (H2 & I2 & _ & R2).
  destruct (rotate_committed _ H2 R2) as (H3 & I3 & _ & R3).
  destruct (rotate_committed _ H3 R3) as (_ & I4 & L4 & _).
  lia.
Qed.

Lemma four_rotations_witness :
  let c := run (handleCropChange r4_3) initial_component in
  let c4 := run handleRotate (run handleRotate (run handleRotate (run handleRotate c))) in
  live c4 = live c /\ currentIndex c4 = 5 /\ len (history c4) = 6.
Proof.
  intros c c4.
  pose proof (four_rotations (fun _ => None) true (fun _ => "") "abc" c) as H.
  vm_compute in H. vm_compute.
  destruct H as (Hl & _ & Hi); [split; [discriminate | reflexivity]|].
  destruct (Hi eq_refl) as [Hi4 Hlen].
  split; [exact Hl|]. split; [exact Hi4 | exact Hlen].
Defined.

(** ** Parameter domains *)

Section DomainFacts.

Lemma INITIAL_STATE_valid : EditorState_valid INITIAL_STATE.
Proof. unfold EditorState_valid. cbn. lia. Qed.

Lemma rotated_valid (l : EditorState) :
  EditorState_valid l ->
  EditorState_valid {| brightness := brightness l; contrast := contrast l;
                       rotation := Z.rem (rotation l + 90) 360; cropRatio := cropRatio l |}.
Proof.
  intros (Hb & Hc & Hr). unfold EditorState_valid. cbn -[Z.rem].
  split; [exact Hb|]. split; [exact Hc|].
  destruct Hr as [-> | [-> | [-> | ->]]]; rewrite quarter_turn by lia; cbn; lia.
Qed.

Lemma addToHistory_valid (newState : EditorState) (snap q : Component) :
  Forall EditorState_valid (history snap) -> history q = history snap ->
  EditorState_valid newState -> EditorState_valid (live q) ->
  Component_valid (addToHistory newState snap q).2.
Proof.
  intros Hh Hq Hn Hl.
  destruct (current snap) as [cur|] eqn:Hcur.
  - rewrite (addToHistory_closed _ _ _ _ Hcur). cbn.
    destruct (decide (cur = newState)).
    + split; [exact Hl | rewrite Hq; exact Hh].
    + split; [exact Hl|]. cbn. apply Forall_app. split.
      * apply Forall_take, Hh.
      * constructor; [exact Hn | constructor].
  - rewrite (addToHistory_undefined _ _ _ Hcur). cbn.
    split; [exact Hl | rewrite Hq; exact Hh].
Qed.

Lemma at_index_valid (h : list EditorState) (i : Z) (st : EditorState) :
  Forall EditorState_valid h -> at_index h i = Some st -> EditorState_valid st.
Proof.
  intros Hh Hst. unfold at_index in Hst.
  destruct (i <? 0); [discriminate|].
  exact (proj1 (Forall_lookup _ _) Hh _ _ Hst).
Qed.

Lemma step_valid (image : string) (e : Event) (w : World) :
  Event_valid e -> World_valid w -> World_valid (step image e w).
Proof.
  intros He [[Hl Hh] Hs].
  destruct e; cbn -[handleRotate handleCropChange commitSliderChange handleUndo handleRedo
                    handleRestoreAutosave] in *.
  - split; [|exact Hs]. split; [|exact Hh].
    destruct Hl as (_ & Hc & Hr). repeat split; cbn; tauto.
  - split; [|exact Hs]. split; [|exact Hh].
    destruct Hl as (Hb & _ & Hr). repeat split; cbn; tauto.
  - split; [|exact Hs]. unfold run. rewrite commitSliderChange_cases.
    apply addToHistory_valid; auto.
  - split; [|exact Hs]. unfold run, handleRotate, bind, rendered.
    cbn -[addToHistory Z.rem].
    apply addToHistory_valid; auto; apply rotated_valid, Hl.
  - split; [|exact Hs]. unfold run, handleCropChange, bind, rendered.
    cbn -[addToHistory].
    apply addToHistory_valid; auto; exact Hl.
  - split; [|exact Hs]. unfold run. rewrite handleUndo_closed.
    destruct (_ >? _); [|split; assumption].
    destruct (at_index _ _) as [st|] eqn:Hst; (split; [|exact Hh]); cbn.
    + exact (at_index_valid _ _ _ Hh Hst).
    + exact Hl.
  - split; [|exact Hs]. unfold run. rewrite handleRedo_closed.
    destruct (_ <? _); [|split; assumption].
    destruct (at_index _ _) as [st|] eqn:Hst; (split; [|exact Hh]); cbn.
    + exact (at_index_valid _ _ _ Hh Hst).
    + exact Hl.
  - split; [|exact Hs]. split; cbn.
    + exact INITIAL_STATE_valid.
    + constructor; [exact INITIAL_STATE_valid | constructor].
  - split; [|exact Hs]. unfold run, handleRestoreAutosave, try_catch.
    destruct (slot w) as [| |parsed]; cbn; try (split; assumption).
    destruct (String.eqb _ _); cbn; [|split; assumption].
    destruct Hs as [Hsl Hsh]. split; cbn; [|exact Hsh].
    destruct (saved_live parsed). exact Hsl.
  - split; [split; assumption|]. split; assumption.
Qed.

End DomainFacts.

(** X13.  The parameters stay in their domains: if brightness and contrast
    lie in [0, 200] and the rotation is a quarter turn (0, 90, 180 or 270)
    in the live parameters, in every history entry and in the stored
    snapshot, then the same holds after any event whose slider value lies
    in [0, 200]. *)
Theorem parameters_stay_in_domain (image : string) (e : Event) (w : World) :
  Event_valid e -> World_valid w -> World_valid (step image e w).
Proof. apply step_valid. Qed.

Lemma parameters_stay_in_domain_witness :
  World_valid (step "abc" Rotate
    {| comp :=
         {| live := {| brightness := 140; contrast := 60; rotation := 270; cropRatio := r4_3 |};
            history :=
              [INITIAL_STATE;
               {| brightness := 140; contrast := 60; rotation := 270; cropRatio := r4_3 |}];
            currentIndex := 1;
            hasAutosave := false |};
       slot := NoItem |}).
Proof.
  apply parameters_stay_in_domain; [exact I|].
  split; [|exact I].
  split; [unfold EditorState_valid; cbn; lia|].
  cbn. repeat (apply Forall_cons; split; [unfold EditorState_valid; cbn; lia|]).
  apply Forall_nil. exact I.
Defined.

(** ** Apply *)

Section ApplyFacts.
Open Scope Q_scope.

(** The crop of a buffer of positive size, with its bounds. *)
Lemma crop_inside (W H : Q) (ratio : CropRatio) :
  0 < W -> 0 < H ->
  exists cw ch cx cy : Q,
    getCropDimensions (JS.Fin W) (JS.Fin H) ratio =
      {| width := JS.Fin cw; height := JS.Fin ch; x := JS.Fin cx; y := JS.Fin cy |} /\
    0 <= cx /\ 0 <= cy /\ cx + cw <= W /\ cy + ch <= H.
Proof.
  intros HW HH.
  destruct (ratio_terms ratio) as [[w h]|] eqn:Hr.
  - destruct (crop_dimensions W H ratio w h HH Hr)
      as (cw & ch & Hcw & Hch & Hx & Hy & _ & Hfit).
    exists cw, ch, ((W - cw) / 2), ((H - ch) / 2).
    split.
    { destruct (getCropDimensions _ _ _). cbn in *. congruence. }
    unfold Qdiv. change (/ 2) with (1 # 2).
    destruct Hfit as [[E Hle]|[E Hle]]; repeat split; lra.
  - destruct ratio; try discriminate.
    exists W, H, 0, 0. split; [reflexivity|]. repeat split; lra.
Qed.

End ApplyFacts.

(** X14.  Apply calls [onSave] at most once and calls nothing else: once
    exactly when the image decodes and a 2d context is available, in which
    case the app takes the new image as the remix source and closes the
    editor; otherwise the app is left as it was.  The editor's own state
    is never changed by Apply. *)
Theorem apply_saves_at_most_once
    (decode : string -> option (Z * Z)) (context2d : bool) (toDataURL : Canvas -> string)
    (image : string) (a : App) (c : Component) :
  let notices := generateFinalImage decode context2d toDataURL image c in
  ((exists png, notices = [SaveCalled png]) <-> is_Some (decode image) /\ context2d = true) /\
  (notices = [] <-> decode image = None \/ context2d = false) /\
  (forall png, notices = [SaveCalled png] ->
     apply decode context2d toDataURL image a c =
       ({| remixSourceImage := Some png; isEditingRemixSource := false |}, c) /\
     editing (apply decode context2d toDataURL image a c).1 = false) /\
  (notices = [] -> apply decode context2d toDataURL image a c = (a, c)).
Proof.
  intros notices. subst notices. unfold apply, generateFinalImage.
  destruct (decode image) as [[w h]|]; [destruct context2d|]; cbn.
  - split; [split; [intros _; split; [eexists; reflexivity | reflexivity]
                   | intros _; eexists; reflexivity]|].
    split; [split; [discriminate | intros [|]; discriminate]|].
    split; [|discriminate].
    intros png [= <-]. auto.
  - split; [split; [intros [png [=]] | intros [_ [=]]]|].
    split; [split; auto|].
    split; [intros png [=] | reflexivity].
  - split; [split; [intros [png [=]] | intros [[v [=]] _]]|].
    split; [split; auto|].
    split; [intros png [=] | reflexivity].
Qed.

Lemma apply_saves_at_most_once_witness :
  let a := {| remixSourceImage := Some "data:image/png;base64,iVBORw0KGgo=";
              isEditingRemixSource := true |} in
  apply (fun _ => Some (1000, 500)) true (fun _ => "data:image/png;base64,AAAA")
    "data:image/png;base64,iVBORw0KGgo=" a initial_component =
    ({| remixSourceImage := Some "data:image/png;base64,AAAA"; isEditingRemixSource := false |},
     initial_component).
Proof.
  intros a.
  destruct (apply_saves_at_most_once (fun _ => Some (1000, 500)) true
              (fun _ => "data:image/png;base64,AAAA")
              "data:image/png;base64,iVBORw0KGgo=" a initial_component) as (_ & _ & H & _).
  apply (H "data:image/png;base64,AAAA"). reflexivity.
Defined.

(** X15.  When the image decodes to a positive size, the rectangle Apply
    copies lies inside the rotated canvas, whose sides are those of the
    image, swapped exactly when the rotation is not a multiple of 180
    (so for 90 and 270, not for 0 and 180). *)
Theorem drawn_region_inside_canvas
    (decode : string -> option (Z * Z)) (toDataURL : Canvas -> string)
    (image : string) (c : Component) (w h : Z) :
  decode image = Some (w, h) -> 0 < w -> 0 < h ->
  exists (canvas : Canvas) (cw ch cx cy : Q),
    generateFinalImage decode true toDataURL image c = [SaveCalled (toDataURL canvas)] /\
    source canvas = image /\
    filter canvas = (brightness (live c), contrast (live c)) /\
    (rotation (live c) = 0 \/ rotation (live c) = 180 -> rotatedSize canvas = (w, h)) /\
    (rotation (live c) = 90 \/ rotation (live c) = 270 -> rotatedSize canvas = (h, w)) /\
    (rotatedSize canvas = (w, h) \/ rotatedSize canvas = (h, w)) /\
    region canvas =
      {| width := JS.Fin cw; height := JS.Fin ch; x := JS.Fin cx; y := JS.Fin cy |} /\
    (0 <= cx /\ 0 <= cy /\
     cx + cw <= inject_Z (rotatedSize canvas).1 /\
     cy + ch <= inject_Z (rotatedSize canvas).2)%Q.
Proof.
  intros Hd Hw Hh. unfold generateFinalImage. rewrite Hd. cbn -[Z.rem getCropDimensions].
  set (sideways := negb (Z.rem (rotation (live c)) 180 =? 0)).
  set (rw := if sideways then h else w). set (rh := if sideways then w else h).
  assert (0 < inject_Z rw)%Q as Hrw.
  { change 0%Q with (inject_Z 0). rewrite <- Zlt_Qlt. subst rw. destruct sideways; lia. }
  assert (0 < inject_Z rh)%Q as Hrh.
  { change 0%Q with (inject_Z 0). rewrite <- Zlt_Qlt. subst rh. destruct sideways; lia. }
  destruct (crop_inside (inject_Z rw) (inject_Z rh) (cropRatio (live c)) Hrw Hrh)
    as (cw & ch & cx & cy & Hcrop & Hb).
  eexists _, cw, ch, cx, cy.
  split; [reflexivity|]. cbn -[Z.rem getCropDimensions].
  split; [reflexivity|]. split; [reflexivity|].
  split; [intros [E|E]; subst sideways rw rh; rewrite E; reflexivity|].
  split; [intros [E|E]; subst sideways rw rh; rewrite E; reflexivity|].
  split; [subst rw rh; destruct sideways; auto|].
  split; [exact Hcrop | exact Hb].
Qed.

Lemma drawn_region_inside_canvas_witness :
  let c := run (handleCropChange r1_1) (run handleRotate initial_component) in
  exists (canvas : Canvas) (cw ch cx cy : Q),
    generateFinalImage (fun _ => Some (1000, 500)) true (fun _ => "data:image/png;base64,AAAA")
      "data:image/png;base64,iVBORw0KGgo=" c = [SaveCalled "data:image/png;base64,AAAA"] /\
    rotatedSize canvas = (500, 1000) /\
    region canvas =
      {| width := JS.Fin cw; height := JS.Fin ch; x := JS.Fin cx; y := JS.Fin cy |} /\
    (0 <= cx /\ 0 <= cy /\ cx + cw <= 500 /\ cy + ch <= 1000)%Q.
Proof.
  intros c.
  destruct (drawn_region_inside_canvas (fun _ => Some (1000, 500))
              (fun _ => "data:image/png;base64,AAAA")
              "data:image/png;base64,iVBORw0KGgo=" c 1000 500 eq_refl eq_refl eq_refl)
    as (canvas & cw & ch & cx & cy & Hn & _ & _ & _ & Hside & _ & Hreg & Hb).
  exists canvas, cw, ch, cx, cy.
  rewrite (Hside ltac:(left; reflexivity)) in Hb.
  split; [exact Hn|]. split; [apply Hside; left; reflexivity|].
  split; [exact Hreg | exact Hb].
Defined.

(** ** Autosave *)

Section AutosaveFacts.

Lemma restore_applies (image : string) (parsed : SavedState) (c : Component) :
  imageSignature parsed = getImageSignature image ->
  run (handleRestoreAutosave image (Item parsed)) c =
    {| live := saved_live parsed; history := saved_history parsed;
       currentIndex := saved_currentIndex parsed; hasAutosave := hasAutosave c |}.
Proof.
  intros E. unfold run, handleRestoreAutosave, try_catch.
  apply String.eqb_eq in E. rewrite E. cbn.
  destruct (saved_live parsed). reflexivity.
Qed.

Lemma slot_kept (image : string) (es : list Event) (w : World) :
  Forall (fun e => forall now, e <> AutosaveFires now) es ->
  slot (steps image es w) = slot w.
Proof.
  intros Hes. revert w. induction Hes as [|e es He _ IH]; intros w; [reflexivity|].
  rewrite steps_cons, IH. destruct e; try reflexivity.
  exfalso. exact (He now eq_refl).
Qed.

End AutosaveFacts.

(** X16.  What the autosave timer stores can be restored in full.  After
    the timer fires in a state [c] the stored snapshot survives every
    event but the next firing of the timer; a restore in a session whose
    image has the same signature (this session or a later one, whatever
    has been edited since) puts back the live parameters, the history and
    the index of [c]; and a later session on such an image shows the
    restore button. *)
Theorem autosave_restore_roundtrip
    (image image' : string) (now : Z) (c : Component) :
  getImageSignature image' = getImageSignature image ->
  let saved := Item (stateToSave image now c) in
  (forall w, slot (step image (AutosaveFires now) {| comp := c; slot := slot w |}) = saved) /\
  (forall es w,
     slot w = saved ->
     Forall (fun e => forall t, e <> AutosaveFires t) es ->
     slot (steps image' es w) = saved) /\
  (forall w,
     slot w = saved ->
     comp (step image' Restore w) =
       {| live := live c; history := history c; currentIndex := currentIndex c;
          hasAutosave := hasAutosave (comp w) |}) /\
  hasAutosave (comp (mount image' saved)) = true.
Proof.
  intros Hsig saved.
  split; [reflexivity|].
  split; [intros es w Hs Hes; rewrite slot_kept by exact Hes; exact Hs|].
  split.
  - intros w Hs. cbn. rewrite Hs. subst saved.
    rewrite restore_applies by (cbn; congruence). reflexivity.
  - subst saved. unfold mount, run, autosaveCheck, try_catch. cbn.
    rewrite Hsig, String.eqb_refl. reflexivity.
Qed.

Lemma autosave_restore_roundtrip_witness :
  let c := run (handleCropChange r16_9) (run handleRotate initial_component) in
  let w1 := step "abc" (AutosaveFires 1700000000000) {| comp := c; slot := NoItem |} in
  let w2 := steps "abc" [Undo; Undo; SlideContrast 20; SliderRelease; Restore] w1 in
  live (comp w2) = live c /\ history (comp w2) = history c /\
  currentIndex (comp w2) = currentIndex c.
Proof.
  intros c w1 w2.
  destruct (autosave_restore_roundtrip "abc" "abc" 1700000000000 c eq_refl)
    as (_ & Hkeep & Hrestore & _).
  subst w2. rewrite (steps_snoc "abc" Restore [Undo; Undo; SlideContrast 20; SliderRelease]).
  rewrite Hrestore.
  - repeat split; reflexivity.
  - apply Hkeep; [reflexivity|]. repeat constructor; discriminate.
Defined.

(** ** More on the signature *)

Section StringFacts.

Lemma app_cons (a : ascii) (s t : string) : String a s +:+ t = String a (s +:+ t).
Proof. reflexivity. Qed.

Lemma app_empty_l (t : string) : "" +:+ t = t.
Proof. reflexivity. Qed.

Lemma app_assoc_s (s t u : string) : (s +:+ t) +:+ u = s +:+ (t +:+ u).
Proof. induction s as [|a s IH]; [reflexivity|]. rewrite !app_cons, IH. reflexivity. Qed.

Lemma app_empty_r (s : string) : s +:+ "" = s.
Proof. induction s as [|a s IH]; [reflexivity|]. rewrite app_cons, IH. reflexivity. Qed.

Lemma length_app_s (s t : string) :
  String.length (s +:+ t) = (String.length s + String.length t)%nat.
Proof. induction s as [|a s IH]; [reflexivity|]. rewrite app_cons. cbn. rewrite IH. reflexivity. Qed.

Lemma length_substring_0 (n : nat) (s : string) :
  String.length (String.substring 0 n s) = Nat.min n (String.length s).
Proof.
  revert n. induction s as [|a s IH]; intros [|n]; cbn; try reflexivity.
  rewrite IH. reflexivity.
Qed.

Lemma substring_prefix (p r : string) : String.substring 0 (String.length p) (p +:+ r) = p.
Proof.
  induction p as [|a p IH]; cbn.
  - destruct r; reflexivity.
  - rewrite app_cons. cbn. rewrite IH. reflexivity.
Qed.

Lemma substring_whole (n : nat) (s : string) :
  (String.length s <= n)%nat -> String.substring 0 n s = s.
Proof.
  revert n. induction s as [|a s IH]; intros [|n] Hn; cbn in *; try reflexivity; try lia.
  rewrite IH by lia. reflexivity.
Qed.

Lemma substring_suffix (q s : string) :
  String.substring (String.length q) (String.length s) (q +:+ s) = s.
Proof.
  induction q as [|a q IH].
  - rewrite app_empty_l. apply substring_whole. cbn. lia.
  - rewrite app_cons. cbn. exact IH.
Qed.

(** Two strings cut at the same length. *)
Lemma app_eq_length (a1 a2 r1 r2 : string) :
  String.length a1 = String.length a2 -> a1 +:+ r1 = a2 +:+ r2 -> a1 = a2 /\ r1 = r2.
Proof.
  revert a2. induction a1 as [|c a1 IH]; intros [|d a2] Hl E; try discriminate.
  - auto.
  - rewrite !app_cons in E. injection E as -> E. cbn in Hl.
    destruct (IH a2 ltac:(lia) E) as [-> ->]. auto.
Qed.

(** Two strings cut at the first occurrence of a character. *)
Lemma app_eq_lacks (c : ascii) (d1 d2 r1 r2 : string) :
  lacks c d1 -> lacks c d2 ->
  d1 +:+ String c r1 = d2 +:+ String c r2 -> d1 = d2 /\ r1 = r2.
Proof.
  revert d2. induction d1 as [|a d1 IH]; intros [|b d2] H1 H2 E; cbn in H1, H2.
  - rewrite !app_empty_l in E. injection E as ->. auto.
  - rewrite app_empty_l, app_cons in E. injection E as <- _. tauto.
  - rewrite app_empty_l, app_cons in E. injection E as -> _. tauto.
  - rewrite !app_cons in E. injection E as -> E.
    destruct (IH d2 (proj2 H1) (proj2 H2) E) as [-> ->]. auto.
Qed.

Lemma pretty_N_go_lacks_dash (x : N) (s : string) :
  lacks "-" s -> lacks "-" (pretty_N_go x s).
Proof.
  revert s. induction (N.lt_wf_0 x) as [x _ IH]; intros s Hs.
  assert (x = 0 \/ 0 < x)%N as [->|Hx] by lia.
  - rewrite pretty_N_go_0. exact Hs.
  - rewrite pretty_N_go_step by exact Hx. apply IH.
    + apply N.div_lt; [exact Hx | reflexivity].
    + cbn. split; [|exact Hs].
      unfold pretty_N_char. repeat case_match; discriminate.
Qed.

Lemma pretty_nat_lacks_dash (n : nat) : lacks "-" (pretty n).
Proof.
  unfold pretty, pretty_nat, pretty, pretty_N.
  destruct (decide _).
  - cbn. split; [discriminate | exact I].
  - apply pretty_N_go_lacks_dash. exact I.
Qed.

(** The signature of a non-empty string, spelled out. *)
Lemma signature_nonempty (s : string) :
  s <> "" ->
  getImageSignature s =
    pretty (String.length s) +:+ String "-" (slice_head 30 s +:+ String "-" (slice_tail 30 s)).
Proof. destruct s; [contradiction | reflexivity]. Qed.

End StringFacts.

(** When two signatures are equal. *)
Lemma signature_eq_iff (a b : string) :
  (getImageSignature a = "" <-> a = "") /\
  (a <> "" -> b <> "" ->
   (getImageSignature a = getImageSignature b <->
    String.length a = String.length b /\
    slice_head 30 a = slice_head 30 b /\
    slice_tail 30 a = slice_tail 30 b)).
Proof.
  split.
  - split; [|intros ->; reflexivity].
    destruct a as [|c a]; [reflexivity|]. intros E. exfalso.
    rewrite signature_nonempty in E by discriminate.
    destruct (pretty (String.length (String c a))) eqn:Ep; discriminate E.
  - intros Ha Hb. rewrite !signature_nonempty by assumption. split.
    + intros E.
      apply app_eq_lacks in E as [Elen E]; try apply pretty_nat_lacks_dash.
      apply (inj pretty) in Elen.
      apply app_eq_length in E as [Eh Et].
      * injection Et as Et. auto.
      * unfold slice_head. rewrite !length_substring_0, Elen. reflexivity.
    + intros (-> & -> & ->). reflexivity.
Qed.

(** X17.  The signature is empty for the empty source only, and two
    non-empty sources have the same signature exactly when they have the
    same length, the same first 30 and the same last 30 characters. *)
Theorem signature_characterised (a b : string) :
  (getImageSignature a = "" <-> a = "") /\
  (a <> "" -> b <> "" ->
   (getImageSignature a = getImageSignature b <->
    String.length a = String.length b /\
    slice_head 30 a = slice_head 30 b /\
    slice_tail 30 a = slice_tail 30 b)).
Proof. apply signature_eq_iff. Qed.

Lemma signature_characterised_witness :
  getImageSignature "data:image/png;base64,AAAA" <> getImageSignature "data:image/png;base64,AAAB".
Proof.
  intros E.
  apply (proj2 (signature_characterised "data:image/png;base64,AAAA"
                  "data:image/png;base64,AAAB")) in E; [|discriminate|discriminate].
  destruct E as (_ & E & _). discriminate E.
Defined.

(** X18.  The signature does not see the middle of a source: two sources
    with the same first 30 characters, the same last 30 characters and
    middles of the same length have the same signature, so a snapshot
    saved for one is offered and restored for the other. *)
Theorem signature_ignores_the_middle
    (p m1 m2 s : string) (now : Z) (c c' : Component) :
  String.length p = 30%nat -> String.length s = 30%nat ->
  String.length m1 = String.length m2 ->
  let a := p +:+ m1 +:+ s in
  let b := p +:+ m2 +:+ s in
  getImageSignature a = getImageSignature b /\
  hasAutosave (comp (mount b (Item (stateToSave a now c)))) = true /\
  history (run (handleRestoreAutosave b (Item (stateToSave a now c))) c') = history c.
Proof.
  intros Hp Hs Hm a b.
  assert (Hne : forall m, p +:+ m +:+ s <> "").
  { intros m E. apply (f_equal String.length) in E.
    rewrite !length_app_s in E. cbn in E. lia. }
  assert (Hsig : getImageSignature a = getImageSignature b).
  { apply signature_eq_iff; [apply Hne | apply Hne|].
    subst a b. unfold slice_head, slice_tail.
    rewrite !length_app_s, Hp, Hs, Hm.
    split; [reflexivity|]. split.
    - rewrite <- Hp. rewrite !substring_prefix. reflexivity.
    - rewrite <- !app_assoc_s.
      replace (30 + (String.length m2 + 30) - 30)%nat
        with (String.length (p +:+ m1)) at 1 by (rewrite length_app_s; lia).
      replace (30 + (String.length m2 + 30) - 30)%nat
        with (String.length (p +:+ m2)) by (rewrite length_app_s; lia).
      rewrite <- Hs. rewrite !substring_suffix. reflexivity. }
  split; [exact Hsig|]. split.
  - unfold mount, run, autosaveCheck, try_catch. cbn.
    rewrite Hsig, String.eqb_refl. reflexivity.
  - rewrite restore_applies by (cbn; congruence). reflexivity.
Qed.

Lemma signature_ignores_the_middle_witness :
  getImageSignature "data:image/png;base64,iVBORw0KAAAAAAAAAAAAAAAAAAAAAAAAAAAAAAAAAAAAAAAAAAAAAAA=" =
  getImageSignature "data:image/png;base64,iVBORw0KAAAAAAAABBBBBBBBBBAAAAAAAAAAAAAAAAAAAAAAAAAAAAA=".
Proof.
  exact (proj1 (signature_ignores_the_middle
                  "data:image/png;base64,iVBORw0K" "AAAAAAAAAAAAAAAAAA" "AAAAAAAABBBBBBBBBB"
                  "AAAAAAAAAAAAAAAAAAAAAAAAAAAAA=" 0 initial_component initial_component
                  eq_refl eq_refl eq_refl)).
Defined.

(** ** The image service *)

Section SplitFacts.

Lemma rev_app_app (s t : string) : String.rev_app s t = String.rev s +:+ t.
Proof.
  unfold String.rev. revert t. induction s as [|a s IH]; intros t; [reflexivity|].
  cbn. rewrite (IH (String a t)), (IH (String a "")), app_assoc_s. reflexivity.
Qed.

Lemma rev_cons (a : ascii) (s : string) : String.rev (String a s) = String.rev s +:+ String a "".
Proof. unfold String.rev at 1. cbn. apply rev_app_app. Qed.

Lemma lacks_app (c : ascii) (s t : string) : lacks c (s +:+ t) <-> lacks c s /\ lacks c t.
Proof.
  induction s as [|a s IH]; [rewrite app_empty_l; cbn; tauto|].
  rewrite app_cons. cbn. tauto.
Qed.

(** A string without the separator is one piece. *)
Lemma split_go_whole (sep : ascii) (cur a : string) :
  lacks sep a -> JS.split_go sep cur a = [String.rev cur +:+ a].
Proof.
  revert cur. induction a as [|c a IH]; intros cur Ha; cbn in *.
  - rewrite app_empty_r. reflexivity.
  - destruct Ha as [Hc Ha]. apply Ascii.eqb_neq in Hc. rewrite Hc.
    rewrite IH by exact Ha. rewrite rev_cons, app_assoc_s. reflexivity.
Qed.

(** The first piece ends at the first separator. *)
Lemma split_go_first (sep : ascii) (cur a b : string) :
  lacks sep a ->
  JS.split_go sep cur (a +:+ String sep b) =
    (String.rev cur +:+ a) :: JS.split_go sep "" b.
Proof.
  revert cur. induction a as [|c a IH]; intros cur Ha; cbn in Ha.
  - rewrite app_empty_l, app_empty_r. cbn. rewrite Ascii.eqb_refl. reflexivity.
  - destruct Ha as [Hc Ha]. apply Ascii.eqb_neq in Hc.
    rewrite app_cons. cbn. rewrite Hc.
    rewrite IH by exact Ha. rewrite rev_cons, app_assoc_s. reflexivity.
Qed.

Lemma split_first (sep : ascii) (a b : string) :
  lacks sep a -> JS.split sep (a +:+ String sep b) = a :: JS.split sep b.
Proof. intros Ha. unfold JS.split. rewrite split_go_first by exact Ha. reflexivity. Qed.

Lemma split_whole (sep : ascii) (a : string) : lacks sep a -> JS.split sep a = [a].
Proof. intros Ha. unfold JS.split. rewrite split_go_whole by exact Ha. reflexivity. Qed.

Lemma split_go_nonempty (sep : ascii) (cur s : string) :
  exists piece rest, JS.split_go sep cur s = piece :: rest.
Proof.
  revert cur. induction s as [|c s IH]; intros cur; cbn.
  - eauto.
  - destruct (Ascii.eqb c sep); [eauto | apply IH].
Qed.

Lemma split_go_second (sep : ascii) (cur s : string) :
  JS.split_go sep cur s !! 1%nat = None <-> lacks sep s.
Proof.
  revert cur. induction s as [|c s IH]; intros cur; cbn.
  - tauto.
  - destruct (Ascii.eqb_spec c sep) as [->|Hne].
    + destruct (split_go_nonempty sep "" s) as (piece & rest & ->). cbn.
      split; [discriminate | intros [Hc _]; contradiction].
    + rewrite IH. tauto.
Qed.

End SplitFacts.

(** Taking a data URL apart. *)
Lemma data_url_split (mime payload : string) :
  lacks "," mime -> lacks ";" mime -> lacks ":" mime -> lacks "," payload ->
  getMimeType ("data:" +:+ mime +:+ ";base64," +:+ payload) = Some mime /\
  cleanBase64 ("data:" +:+ mime +:+ ";base64," +:+ payload) = Some payload.
Proof.
  intros Hcomma Hsemi Hcolon Hpay. split.
  - unfold getMimeType.
    replace ("data:" +:+ mime +:+ ";base64," +:+ payload)
      with (("data:" +:+ mime) +:+ String ";" ("base64," +:+ payload))
      by (rewrite app_assoc_s; reflexivity).
    rewrite split_first.
    + cbn [lookup list_lookup default from_option id].
      change ("data:" +:+ mime) with ("data" +:+ String ":" mime).
      rewrite split_first by (cbn; repeat split; discriminate).
      rewrite split_whole by exact Hcolon. reflexivity.
    + apply lacks_app. split; [cbn; repeat split; discriminate | exact Hsemi].
  - unfold cleanBase64.
    replace ("data:" +:+ mime +:+ ";base64," +:+ payload)
      with (("data:" +:+ mime +:+ ";base64") +:+ String "," payload)
      by (rewrite !app_assoc_s; reflexivity).
    rewrite split_first.
    + rewrite split_whole by exact Hpay. reflexivity.
    + apply lacks_app. split; [cbn; repeat split; discriminate|].
      apply lacks_app. split; [exact Hcomma | cbn; repeat split; discriminate].
Qed.


(** X19.  A data URL is taken apart the way it was put together: for a
    media type without [,], [;] and [:] and a payload without [,] (as
    base64 is), [getMimeType] gives back the media type and [cleanBase64]
    the payload. *)
Theorem data_url_parts (mime payload : string) :
  lacks "," mime -> lacks ";" mime -> lacks ":" mime -> lacks "," payload ->
  getMimeType ("data:" +:+ mime +:+ ";base64," +:+ payload) = Some mime /\
  cleanBase64 ("data:" +:+ mime +:+ ";base64," +:+ payload) = Some payload.
Proof. apply data_url_split. Qed.

Lemma data_url_parts_witness :
  getMimeType "data:image/jpeg;base64,/9j/4AAQSkZJRg==" = Some "image/jpeg" /\
  cleanBase64 "data:image/jpeg;base64,/9j/4AAQSkZJRg==" = Some "/9j/4AAQSkZJRg==".
Proof.
  apply (data_url_parts "image/jpeg" "/9j/4AAQSkZJRg=="); cbn; repeat split; discriminate.
Defined.

(** X20.  [cleanBase64] is undefined exactly for a string without a comma;
    and when the text after the first comma has a further comma, only the
    part between the two is returned. *)
Theorem cleanBase64_edges (base64Data : string) :
  (cleanBase64 base64Data = None <-> lacks "," base64Data) /\
  (forall head payload more,
     base64Data = head +:+ String "," (payload +:+ String "," more) ->
     lacks "," head -> lacks "," payload ->
     cleanBase64 base64Data = Some payload).
Proof.
  split.
  - apply split_go_second.
  - intros head payload more -> Hh Hp. unfold cleanBase64.
    rewrite split_first by exact Hh. rewrite split_first by exact Hp. reflexivity.
Qed.

Lemma cleanBase64_edges_witness :
  cleanBase64 "data:image/svg+xml;utf8,<svg viewBox='0,0,10,10'/>" = Some "<svg viewBox='0".
Proof.
  apply (proj2 (cleanBase64_edges "data:image/svg+xml;utf8,<svg viewBox='0,0,10,10'/>")
           "data:image/svg+xml;utf8" "<svg viewBox='0" "0,10,10'/>");
    [reflexivity | cbn; repeat split; discriminate | cbn; repeat split; discriminate].
Defined.

Section ResponseFacts.

Lemma inlineImage_first (message : string) (before : list Part) (part : Part)
    (after : list Part) (data : string) :
  Forall (fun p => inlineData p = None) before -> inlineData part = Some data ->
  inlineImage message (before ++ part :: after) = Returned ("data:image/png;base64," +:+ data).
Proof.
  intros Hb Hp. induction Hb as [|p before Hnone _ IH]; cbn.
  - rewrite Hp. reflexivity.
  - rewrite Hnone. exact IH.
Qed.

Lemma inlineImage_cases (message : string) (parts : list Part) :
  (Forall (fun p => inlineData p = None) parts /\ inlineImage message parts = Threw message) \/
  (exists before part after data,
     parts = before ++ part :: after /\
     Forall (fun p => inlineData p = None) before /\ inlineData part = Some data /\
     inlineImage message parts = Returned ("data:image/png;base64," +:+ data)).
Proof.
  induction parts as [|p parts IH]; cbn.
  - left. split; [constructor | reflexivity].
  - destruct (inlineData p) as [data|] eqn:Hp.
    + right. exists [], p, parts, data. repeat split; [constructor | exact Hp].
    + destruct IH as [[Hall ->]|(before & part & after & data & -> & Hb & Hd & ->)].
      * left. split; [constructor; assumption | reflexivity].
      * right. exists (p :: before), part, after, data.
        repeat split; [constructor; assumption | exact Hd].
Qed.

End ResponseFacts.

(** X21.  The image taken from a response is the first part that carries
    inline data, wrapped as a PNG data URL; the functions throw their
    "no image" error exactly when no part carries inline data (an absent
    or empty part list included). *)
Theorem response_image_is_first_inline (parts : option (list Part)) :
  (generateNewImage_result parts = Threw "No image generated." <->
     Forall (fun p => inlineData p = None) (default [] parts)) /\
  (remixImage_result parts = Threw "No remixed image returned." <->
     Forall (fun p => inlineData p = None) (default [] parts)) /\
  (forall before part after data,
     parts = Some (before ++ part :: after) ->
     Forall (fun p => inlineData p = None) before -> inlineData part = Some data ->
     generateNewImage_result parts = Returned ("data:image/png;base64," +:+ data) /\
     remixImage_result parts = Returned ("data:image/png;base64," +:+ data)).
Proof.
  unfold generateNewImage_result, remixImage_result.
  assert (Hthrow : forall message,
            inlineImage message (default [] parts) = Threw message <->
            Forall (fun p => inlineData p = None) (default [] parts)).
  { intros message.
    destruct (inlineImage_cases message (default [] parts))
      as [[Hall E]|(before & part & after & data & E & Hb & Hd & Er)].
    - rewrite E. tauto.
    - rewrite Er. split; [discriminate|].
      intros Hall. rewrite E in Hall. apply Forall_app in Hall as [_ Hall].
      apply Forall_cons in Hall as [Hnone _]. congruence. }
  split; [apply Hthrow|]. split; [apply Hthrow|].
  intros before part after data -> Hb Hd. cbn.
  split; apply inlineImage_first; assumption.
Qed.

Lemma response_image_is_first_inline_witness :
  generateNewImage_result
    (Some [{| inlineData := None; text := Some "Here you go" |};
           {| inlineData := Some "iVBORw0KGgo="; text := None |};
           {| inlineData := Some "AAAA"; text := None |}]) =
    Returned "data:image/png;base64,iVBORw0KGgo=".
Proof.
  destruct (response_image_is_first_inline
              (Some [{| inlineData := None; text := Some "Here you go" |};
                     {| inlineData := Some "iVBORw0KGgo="; text := None |};
                     {| inlineData := Some "AAAA"; text := None |}])) as (_ & _ & H).
  apply (H [{| inlineData := None; text := Some "Here you go" |}]
           {| inlineData := Some "iVBORw0KGgo="; text := None |}
           [{| inlineData := Some "AAAA"; text := None |}] "iVBORw0KGgo=");
    [reflexivity | repeat constructor | reflexivity].
Defined.

(** X22.  What the service returns as an image it can take apart again:
    the result of [generateNewImage] or [remixImage] has media type
    [image/png] and, for inline data without a comma, the payload that
    [cleanBase64] extracts from it is that inline data. *)
Theorem returned_image_parses (parts : option (list Part)) (url : string) :
  generateNewImage_result parts = Returned url \/ remixImage_result parts = Returned url ->
  exists data,
    url = "data:image/png;base64," +:+ data /\
    getMimeType url = Some "image/png" /\
    (lacks "," data -> cleanBase64 url = Some data).
Proof.
  unfold generateNewImage_result, remixImage_result.
  assert (H : forall message, inlineImage message (default [] parts) = Returned url ->
            exists data, url = "data:image/png;base64," +:+ data).
  { intros message E.
    destruct (inlineImage_cases message (default [] parts))
      as [[_ Et]|(_ & _ & _ & data & _ & _ & _ & Er)]; [congruence|].
    exists data. congruence. }
  assert (Hmime : forall data, getMimeType ("data:image/png;base64," +:+ data) = Some "image/png").
  { intros data. unfold getMimeType.
    change ("data:image/png;base64," +:+ data)
      with ("data:image/png" +:+ String ";" ("base64," +:+ data)).
    rewrite split_first by (cbn; repeat split; discriminate). reflexivity. }
  intros [E|E]; apply H in E as [data ->]; exists data;
    (split; [reflexivity|]); (split; [apply Hmime|]); intros Hd;
    apply (data_url_split "image/png" data); try exact Hd; cbn; repeat split; discriminate.
Qed.

Lemma returned_image_parses_witness :
  exists data,
    "data:image/png;base64,iVBORw0KGgo=" = "data:image/png;base64," +:+ data /\
    getMimeType "data:image/png;base64,iVBORw0KGgo=" = Some "image/png" /\
    (lacks "," data -> cleanBase64 "data:image/png;base64,iVBORw0KGgo=" = Some data).
Proof.
  apply (returned_image_parses
           (Some [{| inlineData := None; text := Some "Here is the image" |};
                  {| inlineData := Some "iVBORw0KGgo="; text := None |}])).
  left. reflexivity.
Defined.

Section TrimFacts.

Lemma trimStart_white (l s : string) : every is_white l -> trimStart (l +:+ s) = trimStart s.
Proof.
  induction l as [|c l IH]; intros Hl; [reflexivity|].
  destruct Hl as [Hc Hl]. rewrite app_cons. cbn. rewrite Hc. exact (IH Hl).
Qed.

Lemma trimEnd_white (r : string) : every is_white r -> trimEnd r = "".
Proof.
  induction r as [|c r IH]; intros Hr; [reflexivity|].
  destruct Hr as [Hc Hr]. cbn. rewrite (IH Hr), Hc. reflexivity.
Qed.

Lemma trimEnd_core (core r : string) :
  every (fun c => negb (is_white c)) core -> every is_white r ->
  trimEnd (core +:+ r) = core.
Proof.
  induction core as [|c core IH]; intros Hc Hr.
  - rewrite app_empty_l. apply trimEnd_white, Hr.
  - destruct Hc as [Hc Hcore]. apply negb_true_iff in Hc.
    rewrite app_cons. cbn. rewrite (IH Hcore Hr), Hc.
    destruct core; reflexivity.
Qed.

Lemma trim_surrounded (l core r : string) :
  every is_white l -> every (fun c => negb (is_white c)) core -> every is_white r ->
  trim (l +:+ core +:+ r) = core.
Proof.
  intros Hl Hc Hr. unfold trim. rewrite trimStart_white by exact Hl.
  destruct core as [|c core].
  - rewrite app_empty_l.
    replace r with (r +:+ "") by apply app_empty_r.
    rewrite trimStart_white by exact Hr. reflexivity.
  - pose proof Hc as [Hc1 _]. apply negb_true_iff in Hc1.
    rewrite app_cons. cbn [trimStart]. rewrite Hc1. rewrite <- app_cons.
    apply trimEnd_core; assumption.
Qed.

End TrimFacts.

(** X23.  Which key the client gets.  A key typed by the user is used
    without the white space around it; a missing key or one made of white
    space only gives way to the environment key, which is used as it is
    (not trimmed); with neither, [getAI] throws and [validateApiKey]
    answers false without sending anything. *)
Theorem getAI_key_choice (ping : string -> bool) (apiKey env_API_KEY : option string) :
  (forall l core r,
     apiKey = Some (l +:+ core +:+ r) ->
     every is_white l -> every (fun c => negb (is_white c)) core -> every is_white r ->
     core <> "" ->
     getAI apiKey env_API_KEY = Returned core /\
     validateApiKey ping apiKey env_API_KEY = ping core) /\
  (apiKey = None \/ (exists blank, apiKey = Some blank /\ every is_white blank) ->
   (forall key, env_API_KEY = Some key -> key <> "" ->
      getAI apiKey env_API_KEY = Returned key /\
      validateApiKey ping apiKey env_API_KEY = ping key) /\
   (env_API_KEY = None \/ env_API_KEY = Some "" ->
      (exists message, getAI apiKey env_API_KEY = Threw message) /\
      validateApiKey ping apiKey env_API_KEY = false)).
Proof.
  split.
  - intros l core r -> Hl Hc Hr Hne.
    unfold validateApiKey, getAI. cbn [fmap option_fmap option_map].
    rewrite trim_surrounded by assumption.
    destruct core; [contradiction | auto].
  - intros Hblank.
    assert (Hkey : getAI apiKey env_API_KEY =
                   match env_API_KEY with
                   | Some (String c rest) => Returned (String c rest)
                   | _ => Threw "No API Key found. Please provided a Gemini API Key or ensure the environment variable is set."
                   end).
    { destruct Hblank as [->|(blank & -> & Hb)]; [reflexivity|].
      unfold getAI. cbn [fmap option_fmap option_map].
      replace (trim blank) with "".
      - reflexivity.
      - symmetry. replace blank with (blank +:+ "" +:+ "") by (cbn; apply app_empty_r).
        apply trim_surrounded; [exact Hb | exact I | exact I]. }
    unfold validateApiKey. rewrite Hkey. split.
    + intros key -> Hne. destruct key; [contradiction | auto].
    + intros [-> | ->]; (split; [eexists; reflexivity | reflexivity]).
Qed.

Lemma getAI_key_choice_witness :
  getAI (Some "  AIzaSyExample-key_123 ") (Some "env-key") = Returned "AIzaSyExample-key_123" /\
  getAI (Some "   ") (Some "env-key") = Returned "env-key" /\
  validateApiKey (fun _ => true) (Some "   ") None = false.
Proof.
  destruct (getAI_key_choice (fun _ => true) (Some "  AIzaSyExample-key_123 ") (Some "env-key"))
    as [Hkey _].
  destruct (getAI_key_choice (fun _ => true) (Some "   ") (Some "env-key")) as [_ Henv].
  destruct (getAI_key_choice (fun _ => true) (Some "   ") None) as [_ Hnone].
  split; [|split].
  - apply (Hkey "  " "AIzaSyExample-key_123" " "); try reflexivity;
      cbn; repeat split; discriminate.
  - apply Henv; [right; exists "   "; cbn; auto | reflexivity | discriminate].
  - apply Hnone; [right; exists "   "; cbn; auto | left; reflexivity].
Defined.

(** ** The restore button *)

Section ButtonFacts.

Lemma addToHistory_hasAutosave (newState : EditorState) (snap q : Component) :
  hasAutosave (addToHistory newState snap q).2 = hasAutosave q.
Proof.
  destruct (current snap) as [cur|] eqn:Hcur.
  - rewrite (addToHistory_closed _ _ _ _ Hcur). cbn. destruct (decide _); reflexivity.
  - rewrite (addToHistory_undefined _ _ _ Hcur). reflexivity.
Qed.

Lemma step_hasAutosave (image : string) (e : Event) (w : World) :
  hasAutosave (comp (step image e w)) = hasAutosave (comp w).
Proof.
  destruct e; cbn -[handleRotate handleCropChange commitSliderChange handleUndo handleRedo
                    handleRestoreAutosave]; try reflexivity.
  - unfold run. rewrite commitSliderChange_cases. apply addToHistory_hasAutosave.
  - unfold run, handleRotate, bind, rendered. cbn -[addToHistory Z.rem].
    rewrite addToHistory_hasAutosave. reflexivity.
  - unfold run, handleCropChange, bind, rendered. cbn -[addToHistory].
    rewrite addToHistory_hasAutosave. reflexivity.
  - unfold run. rewrite handleUndo_closed.
    destruct (_ >? _); [|reflexivity]. destruct (at_index _ _); reflexivity.
  - unfold run. rewrite handleRedo_closed.
    destruct (_ <? _); [|reflexivity]. destruct (at_index _ _); reflexivity.
  - unfold run, handleRestoreAutosave, try_catch.
    destruct (slot w) as [| |parsed]; cbn; try reflexivity.
    destruct (String.eqb _ _); reflexivity.
Qed.

End ButtonFacts.

(** X24.  Whether the restore button is shown is settled by the mount
    effect and by nothing else: no event of the session changes it.  So a
    button that is shown stays shown after the restore and after every
    edit, and a button that is hidden stays hidden even once the session's
    own autosave has put a matching snapshot in the slot. *)
Theorem restore_button_fixed_at_mount (image : string) (es : list Event) (w : World) :
  hasAutosave (comp (steps image es w)) = hasAutosave (comp w) /\
  (forall now,
     let w' := steps image (es ++ [AutosaveFires now]) (mount image NoItem) in
     hasAutosave (comp w') = false /\
     exists parsed, slot w' = Item parsed /\ imageSignature parsed = getImageSignature image).
Proof.
  assert (H : forall es w, hasAutosave (comp (steps image es w)) = hasAutosave (comp w)).
  { clear. intros es. induction es as [|e es IH]; intros w; [reflexivity|].
    rewrite steps_cons, IH. apply step_hasAutosave. }
  split; [apply H|].
  intros now w'. subst w'. split.
  - rewrite H. reflexivity.
  - rewrite steps_snoc. cbn. eexists. split; reflexivity.
Qed.
